(** * Google Chat provider adapter: account resolution, normalisation,
      access policy and outbound chunking.

    A shallow embedding of the TypeScript sources

    - [src/googlechat/accounts.ts]        module [Accounts]
    - [src/googlechat/send.ts]            module [Send]
    - [src/googlechat/webhook-server.ts]  module [WebhookServer], the push transport
    - [googlechat/monitor.ts]             module [Monitor], the Pub/Sub pull
                                          transport (unnamed/part_002)
    - [googlechat/types.ts]               module [Types] (unnamed/part_001)
    - the provider plugin                 module [Plugin] (unnamed/part_000)

    followed by the properties proved about them.

    Strings are sequences of UTF-16 code units, optional properties are
    [option]s, a call that may throw returns a [Result], and the loop of
    the chunker runs on fuel.  Numbers that count characters are integers. *)

From Stdlib Require Import ZArith NArith Lia.
From stdpp Require Import base decidable option list countable strings gmap.

Local Open Scope Z_scope.

(* ===================================================================== *)
(** * ECMAScript values used by the adapter *)
(* ===================================================================== *)

Module JS.

(** A JavaScript string is a finite sequence of UTF-16 code units. *)
Abbreviation char16 := N (only parsing).
Abbreviation jsstr := (list N) (only parsing).

(** Code units of a literal whose characters are all below U+0100. *)
Definition str (s : string) : jsstr :=
  map Ascii.N_of_ascii (String.list_ascii_of_string s).

Definition LF : char16 := 10%N.
Definition SP : char16 := 32%N.

(** [s.length] *)
Definition len (s : jsstr) : Z := Z.of_nat (length s).

(** Truthiness of a string: only the empty string is falsy. *)
Definition truthy (s : jsstr) : bool :=
  match s with [] => false | _ :: _ => true end.

(** ECMAScript [WhiteSpace] and [LineTerminator] code points: what
    [trim], [trimStart] and [trimEnd] remove. *)
Definition isWhiteSpace (c : char16) : bool :=
  ((9 <=? c) && (c <=? 13) || (c =? 32) || (c =? 160) || (c =? 5760)
   || (8192 <=? c) && (c <=? 8202) || (c =? 8232) || (c =? 8233)
   || (c =? 8239) || (c =? 8287) || (c =? 12288) || (c =? 65279))%N.

(** [s.trimStart()] *)
Fixpoint trimStart (s : jsstr) : jsstr :=
  match s with
  | [] => []
  | c :: s' => if isWhiteSpace c then trimStart s' else s
  end.

(** The run of white space that [trimStart] removes. *)
Fixpoint leadingWhiteSpace (s : jsstr) : jsstr :=
  match s with
  | [] => []
  | c :: s' => if isWhiteSpace c then c :: leadingWhiteSpace s' else []
  end.

(** [s.trimEnd()] and [s.trim()] *)
Definition trimEnd (s : jsstr) : jsstr := rev (trimStart (rev s)).
Definition trim (s : jsstr) : jsstr := trimEnd (trimStart s).

(** Relative index resolution of [slice]: a negative index counts from
    the end, and the result is clamped to [0, len]. *)
Definition relIndex (n i : Z) : Z :=
  if i <? 0 then Z.max (n + i) 0 else Z.min i n.

(** [s.slice(start, end)]; [end_ = None] is the one-argument call. *)
Definition slice (s : jsstr) (start : Z) (end_ : option Z) : jsstr :=
  let from := relIndex (len s) start in
  let to := match end_ with
            | None => len s
            | Some e => relIndex (len s) e
            end in
  take (Z.to_nat (to - from)) (drop (Z.to_nat from) s).

(** [s.startsWith(search)] *)
Fixpoint startsWith (search s : jsstr) : bool :=
  match search, s with
  | [], _ => true
  | _ :: _, [] => false
  | a :: search', b :: s' => (a =? b)%N && startsWith search' s'
  end.

(** Left-to-right scan behind [lastIndexOf]: [i] is the index of the
    head of [s], [start] the clamped position, [found] the last match
    seen so far. *)
Fixpoint lastIndexFrom (search s : jsstr) (i start found : Z) : Z :=
  match s with
  | [] => if (i <=? start) && startsWith search [] then i else found
  | _ :: s' =>
      if start <? i then found
      else lastIndexFrom search s' (i + 1) start
             (if startsWith search s then i else found)
  end.

(** [s.lastIndexOf(search, position)]: the largest index not above
    [position] (clamped below at 0) where [search] occurs, or -1. *)
Definition lastIndexOf (s search : jsstr) (position : Z) : Z :=
  lastIndexFrom search s 0 (Z.max position 0) (-1).

(** [s.replace(pattern, replacement)] with a string pattern: the first
    occurrence only.  The replacement is taken literally (the sources
    only ever pass the empty string, which has no [$] patterns). *)
Fixpoint replace (s pattern replacement : jsstr) : jsstr :=
  match s with
  | [] => if startsWith pattern [] then replacement else []
  | c :: s' =>
      if startsWith pattern s
      then replacement ++ drop (length pattern) s
      else c :: replace s' pattern replacement
  end.

(** [s.toLowerCase()] on the Basic Latin block: A-Z are mapped to a-z.
    Code units from U+0080 on are left as they are here; ECMAScript
    lower-cases the cased letters among them as well. *)
Definition lowerUnit (c : char16) : char16 :=
  if ((65 <=? c) && (c <=? 90))%N then (c + 32)%N else c.
Definition toLowerCase (s : jsstr) : jsstr := map lowerUnit s.

(** [arr.includes(x)] on an array of strings. *)
Definition includes (arr : list jsstr) (x : jsstr) : bool :=
  bool_decide (x ∈ arr).

(** [s.includes(sub)] on strings. *)
Fixpoint strIncludes (s sub : jsstr) : bool :=
  match s with
  | [] => startsWith sub []
  | _ :: s' => startsWith sub s || strIncludes s' sub
  end.

(** [a ?? b] *)
Definition nullish {A : Type} (a : option A) (b : A) : A :=
  match a with Some x => x | None => b end.

(** Outcome of a call that may throw. *)
Inductive Exn : Type := TypeError.

Inductive Result (A : Type) : Type :=
| Ok (a : A)
| Throw (e : Exn).
Arguments Ok {A} a.
Arguments Throw {A} e.

Definition bind {A B : Type} (r : Result A) (k : A -> Result B) : Result B :=
  match r with
  | Ok a => k a
  | Throw e => Throw e
  end.

(** [o.f] where [o] itself may be [undefined]: reading a property of
    [undefined] throws a [TypeError]. *)
Definition deref {A : Type} (o : option A) : Result A :=
  match o with
  | Some a => Ok a
  | None => Throw TypeError
  end.

End JS.

Import JS.

(** [Result] is the error monad; [x ← r; k] propagates a throw. *)
#[global] Instance result_ret : MRet Result := fun _ a => Ok a.
#[global] Instance result_bind : MBind Result := fun _ _ k r => JS.bind r k.

(* ===================================================================== *)
(** * send.ts: outbound chunking *)
(* ===================================================================== *)

Module Send.

(** The split index chosen for a [remaining] text longer than the
    limit: the last newline within the limit, else the last space, else
    the limit itself.  [splitAt < maxLength / 2] compares an integer
    with a real quotient; for an integer limit it is
    [2 * splitAt < maxLength]. *)
Definition splitIndex (remaining : jsstr) (maxLength : Z) : Z :=
  let splitAt := lastIndexOf remaining [LF] maxLength in
  let splitAt :=
    if (splitAt =? -1) || (2 * splitAt <? maxLength)
    then lastIndexOf remaining [SP] maxLength
    else splitAt in
  let splitAt :=
    if (splitAt =? -1) || (2 * splitAt <? maxLength)
    then maxLength
    else splitAt in
  splitAt.

(** The [while (remaining.length > 0)] loop, one iteration per unit of
    fuel; [None] when the fuel runs out before the loop exits. *)
Fixpoint chunkLoop (fuel : nat) (maxLength : Z)
    (remaining : jsstr) (chunks : list jsstr) : option (list jsstr) :=
  match fuel with
  | O => None
  | S fuel' =>
      if 0 <? len remaining then
        if len remaining <=? maxLength
        then Some (chunks ++ [remaining])
        else
          let splitAt := splitIndex remaining maxLength in
          chunkLoop fuel' maxLength
            (trimStart (slice remaining splitAt None))
            (chunks ++ [slice remaining 0 (Some splitAt)])
      else Some chunks
  end.

(** [chunkGoogleChatText(text, maxLength)] run for at most [fuel]
    iterations of its loop. *)
Definition chunkGoogleChatTextFuel (fuel : nat) (text : jsstr)
    (maxLength : Z) : option (list jsstr) :=
  if len text <=? maxLength then Some [text]
  else chunkLoop fuel maxLength text [].

(** The call returns [chunks]. *)
Definition chunkGoogleChatTextReturns (text : jsstr) (maxLength : Z)
    (chunks : list jsstr) : Prop :=
  exists fuel, chunkGoogleChatTextFuel fuel text maxLength = Some chunks.

(** The default of the [maxLength] parameter. *)
Definition defaultMaxLength : Z := 4000.

(** The call as the plugin makes it: no iteration shortens the text by
    less than one code unit when the limit is positive, so
    [length text + 1] iterations are enough there. *)
Definition chunkGoogleChatText (text : jsstr) (maxLength : option Z)
    : option (list jsstr) :=
  chunkGoogleChatTextFuel (S (length text)) text
    (nullish maxLength defaultMaxLength).

End Send.

(* ===================================================================== *)
(** * types.ts: configuration and wire types *)
(* ===================================================================== *)

Module Types.

(** [GoogleChatAccountConfig]: every field is optional. *)
Module GoogleChatAccountConfig.
Record t : Type := mk {
  name : option jsstr;
  enabled : option bool;
  projectId : option jsstr;
  subscriptionName : option jsstr;
  credentialsPath : option jsstr;
  dmPolicy : option jsstr;
  allowFrom : option (list jsstr);
  spacePolicy : option jsstr;
  allowSpaces : option (list jsstr);
  historyLimit : option Z;
  dmHistoryLimit : option Z;
  textChunkLimit : option Z;
  messagePrefix : option jsstr
}.

(** The object literal [{}]. *)
Definition empty : t :=
  mk None None None None None None None None None None None None None.

(** Object spread [{ ...base, ...account }]: a field that [account]
    carries wins, any other is taken from [base]. *)
Definition spread (base account : t) : t :=
  let pick {A : Type} (f : t -> option A) : option A :=
    match f account with
    | Some v => Some v
    | None => f base
    end in
  mk (pick name) (pick enabled) (pick projectId) (pick subscriptionName)
     (pick credentialsPath) (pick dmPolicy) (pick allowFrom)
     (pick spacePolicy) (pick allowSpaces) (pick historyLimit)
     (pick dmHistoryLimit) (pick textChunkLimit) (pick messagePrefix).
End GoogleChatAccountConfig.

(** [GoogleChatConfig]: the provider-level fields ([base]) and the
    optional per-account overrides, a JS object used as a map. *)
Module GoogleChatConfig.
Record t : Type := mk {
  accounts : option (gmap (list N) GoogleChatAccountConfig.t);
  base : GoogleChatAccountConfig.t
}.
End GoogleChatConfig.

(** The part of [ClawdbotConfig] that the adapter reads. *)
Module ClawdbotConfig.
Record t : Type := mk {
  googlechat : option GoogleChatConfig.t
}.
End ClawdbotConfig.

(** Wire types.  A payload is JSON cast to [GoogleChatEvent]; nothing
    checks it, so every declared field may be absent at run time. *)
Module Sender.
Record t : Type := mk {
  name : option jsstr;
  displayName : option jsstr;
  email : option jsstr;
  type : option jsstr
}.
End Sender.

Module Space.
Record t : Type := mk {
  name : option jsstr;
  type : option jsstr;
  displayName : option jsstr
}.
End Space.

Module Thread.
Record t : Type := mk {
  name : option jsstr
}.
End Thread.

Module SlashCommand.
Record t : Type := mk {
  commandId : option jsstr
}.
End SlashCommand.

(** [GoogleChatMessage] *)
Module Message.
Record t : Type := mk {
  name : option jsstr;
  sender : option Sender.t;
  createTime : option jsstr;
  text : option jsstr;
  space : option Space.t;
  thread : option Thread.t;
  argumentText : option jsstr;
  slashCommand : option SlashCommand.t
}.
End Message.

Module User.
Record t : Type := mk {
  name : option jsstr;
  displayName : option jsstr;
  email : option jsstr
}.
End User.

(** [GoogleChatEvent] *)
Module Event.
Record t : Type := mk {
  type : option jsstr;
  eventTime : option jsstr;
  message : option Message.t;
  user : option User.t;
  space : option Space.t
}.
End Event.

End Types.

Import Types.

(** [a === "literal"] where [a] may be [undefined]. *)
Definition strictEq (a : option jsstr) (lit : string) : bool :=
  bool_decide (a = Some (str lit)).

(** [a || b] on optional strings: [a] when it is a non-empty string. *)
Definition orElse (a : option jsstr) (b : jsstr) : jsstr :=
  match a with
  | Some s => if truthy s then s else b
  | None => b
  end.

(* ===================================================================== *)
(** * accounts.ts: the account registry *)
(* ===================================================================== *)

Module Accounts.

(** [ResolvedGoogleChatAccount] *)
Module ResolvedGoogleChatAccount.
Record t : Type := mk {
  accountId : jsstr;
  enabled : bool;
  name : option jsstr;
  projectId : jsstr;
  subscriptionName : jsstr;
  credentialsPath : option jsstr;
  config : GoogleChatAccountConfig.t
}.
End ResolvedGoogleChatAccount.

Section SessionKey.

(** [routing/session-key.js] is imported but is not part of these
    sources: its constant and its normaliser are parameters here, and so
    is the collation behind [localeCompare]. *)
Variable DEFAULT_ACCOUNT_ID : jsstr.
Variable normalizeAccountId : option jsstr -> jsstr.
Variable localeSort : list jsstr -> list jsstr.

(** [Object.keys(accounts).filter(Boolean)].  The order of the keys is
    that of the map, not the insertion order of the JS object; the only
    caller sorts them. *)
Definition listConfiguredAccountIds (cfg : ClawdbotConfig.t) : list jsstr :=
  match ClawdbotConfig.googlechat cfg with
  | None => []
  | Some googlechat =>
      match GoogleChatConfig.accounts googlechat with
      | None => []
      | Some accounts => List.filter truthy (map fst (map_to_list accounts))
      end
  end.

Definition listGoogleChatAccountIds (cfg : ClawdbotConfig.t) : list jsstr :=
  let ids := listConfiguredAccountIds cfg in
  if bool_decide (length ids = 0%nat) then [DEFAULT_ACCOUNT_ID]
  else localeSort ids.

Definition resolveDefaultGoogleChatAccountId (cfg : ClawdbotConfig.t) : jsstr :=
  let ids := listGoogleChatAccountIds cfg in
  if includes ids DEFAULT_ACCOUNT_ID then DEFAULT_ACCOUNT_ID
  else nullish (head ids) DEFAULT_ACCOUNT_ID.

Definition resolveAccountConfig (cfg : ClawdbotConfig.t) (accountId : jsstr)
    : option GoogleChatAccountConfig.t :=
  match ClawdbotConfig.googlechat cfg with
  | None => None
  | Some googlechat =>
      match GoogleChatConfig.accounts googlechat with
      | None => None
      | Some accounts => accounts !! accountId
      end
  end.

Definition mergeGoogleChatAccountConfig (cfg : ClawdbotConfig.t)
    (accountId : jsstr) : GoogleChatAccountConfig.t :=
  let base :=
    match ClawdbotConfig.googlechat cfg with
    | Some googlechat => GoogleChatConfig.base googlechat
    | None => GoogleChatAccountConfig.empty
    end in
  let account :=
    nullish (resolveAccountConfig cfg accountId) GoogleChatAccountConfig.empty in
  GoogleChatAccountConfig.spread base account.

(** [x !== false] on an optional boolean. *)
Definition notFalse (x : option bool) : bool :=
  match x with
  | Some false => false
  | _ => true
  end.

(** [merged.name?.trim() || undefined] *)
Definition trimmedName (name : option jsstr) : option jsstr :=
  match name with
  | Some s => if truthy (trim s) then Some (trim s) else None
  | None => None
  end.

Definition resolveGoogleChatAccount (cfg : ClawdbotConfig.t)
    (accountId : option jsstr) : ResolvedGoogleChatAccount.t :=
  let baseEnabled :=
    notFalse (match ClawdbotConfig.googlechat cfg with
              | Some googlechat =>
                  GoogleChatAccountConfig.enabled (GoogleChatConfig.base googlechat)
              | None => None
              end) in
  let resolve (accountId : jsstr) :=
    let merged := mergeGoogleChatAccountConfig cfg accountId in
    let accountEnabled := notFalse (GoogleChatAccountConfig.enabled merged) in
    let enabled := baseEnabled && accountEnabled in
    ResolvedGoogleChatAccount.mk
      accountId
      enabled
      (trimmedName (GoogleChatAccountConfig.name merged))
      (nullish (GoogleChatAccountConfig.projectId merged) [])
      (nullish (GoogleChatAccountConfig.subscriptionName merged) [])
      (GoogleChatAccountConfig.credentialsPath merged)
      merged in
  let normalized := normalizeAccountId accountId in
  resolve normalized.

Definition listEnabledGoogleChatAccounts (cfg : ClawdbotConfig.t)
    : list ResolvedGoogleChatAccount.t :=
  List.filter ResolvedGoogleChatAccount.enabled
    (map (fun accountId => resolveGoogleChatAccount cfg (Some accountId))
         (listGoogleChatAccountIds cfg)).

End SessionKey.

End Accounts.

Import Accounts.

(* ===================================================================== *)
(** * The provider plugin *)
(* ===================================================================== *)

Module Plugin.

(** [pairing.normalizeAllowEntry] and [security.resolveDmPolicy]'s
    [normalizeEntry]: [raw.toLowerCase().trim()]. *)
Definition normalizeEntry (raw : jsstr) : jsstr := trim (toLowerCase raw).

(** [config.formatAllowFrom] *)
Definition formatAllowFrom (allowFrom : list jsstr) : list jsstr :=
  List.filter truthy (map (fun entry => toLowerCase (trim entry)) allowFrom).

(** [config.isConfigured] *)
Definition isConfigured (account : ResolvedGoogleChatAccount.t) : bool :=
  truthy (trim (ResolvedGoogleChatAccount.projectId account))
  && truthy (trim (ResolvedGoogleChatAccount.subscriptionName account)).

(** [config.resolveAllowFrom], given the resolved account. *)
Definition resolveAllowFrom (account : ResolvedGoogleChatAccount.t) : list jsstr :=
  nullish (GoogleChatAccountConfig.allowFrom (ResolvedGoogleChatAccount.config account)) [].

End Plugin.

(* ===================================================================== *)
(** * The canonical message *)
(* ===================================================================== *)

(** [NormalizedGoogleChatMessage], declared with the same shape in
    monitor.ts and in webhook-server.ts.  [messageId], [sender.name] and
    [thread.id] are copied from fields the payload may lack. *)
Module Normalized.

Inductive ChatType : Type := dm | group.

#[global] Instance ChatType_eq_dec : EqDecision ChatType.
Proof. solve_decision. Defined.

Module Sender.
Record t : Type := mk {
  id : jsstr;
  name : option jsstr;
  email : option jsstr
}.
End Sender.

Module Chat.
Record t : Type := mk {
  id : jsstr;
  name : jsstr;
  type : ChatType
}.
End Chat.

Module Thread.
Record t : Type := mk {
  id : option jsstr
}.
End Thread.

Module Content.
Record t : Type := mk {
  text : jsstr
}.
End Content.

Record t (Timestamp : Type) : Type := mk {
  provider : jsstr;
  accountId : jsstr;
  messageId : option jsstr;
  timestamp : Timestamp;
  sender : Sender.t;
  chat : Chat.t;
  thread : option Thread.t;
  content : Content.t;
  raw : Event.t
}.
Arguments mk {Timestamp}.
Arguments provider {Timestamp}.
Arguments accountId {Timestamp}.
Arguments messageId {Timestamp}.
Arguments timestamp {Timestamp}.
Arguments sender {Timestamp}.
Arguments chat {Timestamp}.
Arguments thread {Timestamp}.
Arguments content {Timestamp}.
Arguments raw {Timestamp}.

End Normalized.

(* ===================================================================== *)
(** * monitor.ts: the pull transport *)
(* ===================================================================== *)

Module Monitor.

Section WithDate.

(** [new Date(s).getTime()]: the date parser of the host, a parameter. *)
Context {Timestamp : Type}.
Variable dateGetTime : option jsstr -> Timestamp.

(** Reading a property of an absent [sender] or [space], or calling
    [replace] on an absent name, throws a TypeError; nothing else in the
    function throws, so the order of the reads does not show in the
    outcome. *)
Definition normalizeMessage (event : Event.t) (accountId : jsstr)
    : Result (option (Normalized.t Timestamp)) :=
  if negb (strictEq (Event.type event) "MESSAGE") then Ok None
  else
    match Event.message event with
    | None => Ok None
    | Some msg =>
        (* Skip messages from bots *)
        sender ← deref (Message.sender msg);
        if strictEq (Sender.type sender) "BOT" then Ok None
        else
          space ← deref (Message.space msg);
          spaceName ← deref (Space.name space);
          let spaceId := replace spaceName (str "spaces/") [] in
          let isDM := strictEq (Space.type space) "DM" in
          senderName ← deref (Sender.name sender);
          Ok (Some (Normalized.mk
            (str "googlechat")
            accountId
            (Message.name msg)
            (dateGetTime (Message.createTime msg))
            (Normalized.Sender.mk
               (replace senderName (str "users/") [])
               (Sender.displayName sender)
               (Sender.email sender))
            (Normalized.Chat.mk
               spaceId
               (orElse (Space.displayName space) spaceId)
               (if isDM then Normalized.dm else Normalized.group))
            (match Message.thread msg with
             | Some thread => Some (Normalized.Thread.mk (Thread.name thread))
             | None => None
             end)
            (Normalized.Content.mk
               (orElse (Message.argumentText msg)
                  (orElse (Message.text msg) [])))
            event))
  end.

(** The [policy] constant of [checkMessagePolicy]. *)
Definition policy (message : Normalized.t Timestamp)
    (account : ResolvedGoogleChatAccount.t) : jsstr :=
  let config := ResolvedGoogleChatAccount.config account in
  match Normalized.Chat.type (Normalized.chat message) with
  | Normalized.dm => nullish (GoogleChatAccountConfig.dmPolicy config) (str "pairing")
  | Normalized.group => nullish (GoogleChatAccountConfig.spacePolicy config) (str "disabled")
  end.

Definition checkMessagePolicy (message : Normalized.t Timestamp)
    (account : ResolvedGoogleChatAccount.t) : bool :=
  let config := ResolvedGoogleChatAccount.config account in
  let policy := policy message account in
  if bool_decide (policy = str "disabled") then false
  else if bool_decide (policy = str "open") then true
  else if bool_decide (policy = str "allowlist") then
    match Normalized.Chat.type (Normalized.chat message) with
    | Normalized.dm =>
        let allowFrom := nullish (GoogleChatAccountConfig.allowFrom config) [] in
        includes allowFrom
          (nullish (Normalized.Sender.email (Normalized.sender message)) [])
    | Normalized.group =>
        let allowSpaces := nullish (GoogleChatAccountConfig.allowSpaces config) [] in
        includes allowSpaces (Normalized.Chat.id (Normalized.chat message))
    end
  else if bool_decide (policy = str "pairing") then
    (* For pairing mode, we'd need to check the pairing store *)
    false
  else false.

(** What [messageHandler] tells the broker, and whether the message got
    past the policy.  [eventData] is the outcome of [JSON.parse]. *)
Inductive Settlement : Type := ack | nack.

Definition messageHandler (account : ResolvedGoogleChatAccount.t)
    (eventData : Result Event.t) : Settlement * bool :=
  let attempt : Result bool :=
    event ← eventData;
    normalized ← normalizeMessage event (ResolvedGoogleChatAccount.accountId account);
    match normalized with
    | Some message => Ok (checkMessagePolicy message account)
    | None => Ok false
    end in
  match attempt with
  | Ok allowed => (ack, allowed)
  | Throw _ => (nack, false)
  end.

End WithDate.

End Monitor.

(* ===================================================================== *)
(** * webhook-server.ts: the push transport *)
(* ===================================================================== *)

Module WebhookServer.

(** A JSON response body, as far as the handler builds one. *)
Inductive Body : Type :=
| JsonText (text : jsstr)     (* { text } *)
| JsonEmpty                   (* {} *)
| JsonError (error : jsstr).  (* { error } *)

Record Response : Type := mkResponse {
  status : Z;
  body : Body
}.

(** One handled request: the response sent, and the canonical message
    the handler built on the way, if any. *)
Record Handled (Timestamp : Type) : Type := mkHandled {
  response : Response;
  normalized : option (Normalized.t Timestamp)
}.
Arguments mkHandled {Timestamp}.
Arguments response {Timestamp}.
Arguments normalized {Timestamp}.

Definition welcomeText : jsstr :=
  str "Hello! I'm Clawdbot, your personal AI assistant. Send me a message to get started!".

Definition quote : char16 := 34%N.

(** The template literal of the echo reply. *)
Definition echoText (text : jsstr) : jsstr :=
  str "Got your message! (Clawdbot Google Chat integration is working)"
  ++ [LF; LF] ++ str "You said: " ++ [quote] ++ text ++ [quote].

Section WithDate.

Context {Timestamp : Type}.
Variable dateGetTime : option jsstr -> Timestamp.

(** The copy of the normaliser in webhook-server.ts. *)
Definition normalizeMessage (event : Event.t) (accountId : jsstr)
    : Result (option (Normalized.t Timestamp)) :=
  if negb (strictEq (Event.type event) "MESSAGE") then Ok None
  else
    match Event.message event with
    | None => Ok None
    | Some msg =>
        (* Skip messages from bots *)
        sender ← deref (Message.sender msg);
        if strictEq (Sender.type sender) "BOT" then Ok None
        else
          space ← deref (Message.space msg);
          spaceName ← deref (Space.name space);
          let spaceId := replace spaceName (str "spaces/") [] in
          let isDM := strictEq (Space.type space) "DM" in
          senderName ← deref (Sender.name sender);
          Ok (Some (Normalized.mk
            (str "googlechat")
            accountId
            (Message.name msg)
            (dateGetTime (Message.createTime msg))
            (Normalized.Sender.mk
               (replace senderName (str "users/") [])
               (Sender.displayName sender)
               (Sender.email sender))
            (Normalized.Chat.mk
               spaceId
               (orElse (Space.displayName space) spaceId)
               (if isDM then Normalized.dm else Normalized.group))
            (match Message.thread msg with
             | Some thread => Some (Normalized.Thread.mk (Thread.name thread))
             | None => None
             end)
            (Normalized.Content.mk
               (orElse (Message.argumentText msg)
                  (orElse (Message.text msg) [])))
            event))
  end.

(** The handler of [POST /webhook/googlechat].  [onMessage] is the
    optional callback of the options; it may throw. *)
Definition webhookPost (account : ResolvedGoogleChatAccount.t)
    (onMessage : option (Event.t -> Result unit)) (event : Event.t)
    : Handled Timestamp :=
  let ok (b : Body) := mkResponse 200 b in
  let failed := mkResponse 500 (JsonError (str "Internal server error")) in
  if strictEq (Event.type event) "ADDED_TO_SPACE" then
    (* Bot was added to a space *)
    mkHandled (ok (JsonText welcomeText)) None
  else if strictEq (Event.type event) "MESSAGE" then
    match normalizeMessage event (ResolvedGoogleChatAccount.accountId account) with
    | Throw _ => mkHandled failed None
    | Ok None => mkHandled (ok JsonEmpty) None
    | Ok (Some message) =>
        match (match onMessage with
               | Some callback => callback event
               | None => Ok tt
               end) with
        | Throw _ => mkHandled failed (Some message)
        | Ok _ =>
            mkHandled
              (ok (JsonText (echoText
                     (Normalized.Content.text (Normalized.content message)))))
              (Some message)
        end
    end
  else
    (* Default response for other events *)
    mkHandled (ok JsonEmpty) None.

End WithDate.

End WebhookServer.

(* ===================================================================== *)
(** * send.ts: the REST calls *)
(* ===================================================================== *)

Module Outbound.

(** The widgets that [sendGoogleChatMedia] puts in a card section. *)
Inductive Widget : Type :=
| image (imageUrl altText : jsstr)
| textParagraph (text : jsstr).

(** [chat_v1.Schema$CardWithId], as far as it is built here: the id and
    the widgets of each section of the card. *)
Record CardWithId : Type := mkCard {
  cardId : jsstr;
  sections : list (list Widget)
}.

(** [chat_v1.Schema$Message], the request body of a create call;
    [thread] holds the thread's [name]. *)
Module RequestBody.
Record t : Type := mk {
  text : option jsstr;
  cardsV2 : option (list CardWithId);
  thread : option jsstr
}.
End RequestBody.

(** The argument of [client.spaces.messages.create]. *)
Record CreateParams : Type := mkCreate {
  parent : jsstr;
  requestBody : RequestBody.t
}.

Record SendGoogleChatResult : Type := mkResult {
  messageId : jsstr;
  spaceName : jsstr
}.

(** The cache key of [getChatClient]:
    [`${account.accountId}:${account.credentialsPath ?? "default"}`]. *)
Definition cacheKey (account : ResolvedGoogleChatAccount.t) : jsstr :=
  ResolvedGoogleChatAccount.accountId account ++ str ":"
  ++ nullish (ResolvedGoogleChatAccount.credentialsPath account) (str "default").

(** [to.startsWith("spaces/") ? to : `spaces/${to}`] *)
Definition resolveSpaceName (to : jsstr) : jsstr :=
  if startsWith (str "spaces/") to then to else str "spaces/" ++ to.

(** An optional string as a condition: [Some] only when it is a
    non-empty string. *)
Definition whenTruthy (o : option jsstr) : option jsstr :=
  match o with
  | Some s => if truthy s then Some s else None
  | None => None
  end.

Section Api.

(** The googleapis client and its create call are parameters: [chat]
    builds a client from the key file, [create] answers with
    [response.data.name] or fails. *)
Context {Client Failure : Type}.
Variable chat : option jsstr -> Client.
Variable create : Client -> CreateParams -> Failure + option jsstr.

(** [getChatClient], with the module-level [chatClients] map passed in
    and out. *)
Definition getChatClient (account : ResolvedGoogleChatAccount.t)
    (chatClients : gmap (list N) Client) : Client * gmap (list N) Client :=
  match chatClients !! cacheKey account with
  | Some cached => (cached, chatClients)
  | None =>
      let client := chat (ResolvedGoogleChatAccount.credentialsPath account) in
      (client, <[cacheKey account := client]> chatClients)
  end.

(** The create call and the result built from its response, shared by
    the two senders. *)
Definition createMessage (client : Client) (spaceName : jsstr)
    (requestBody : RequestBody.t) : Failure + SendGoogleChatResult :=
  match create client (mkCreate spaceName requestBody) with
  | inl failure => inl failure
  | inr name => inr (mkResult (nullish name []) spaceName)
  end.

Definition sendGoogleChatText (to text : jsstr)
    (account : ResolvedGoogleChatAccount.t)
    (threadKey replyToId : option jsstr)
    (chatClients : gmap (list N) Client)
    : (Failure + SendGoogleChatResult) * gmap (list N) Client :=
  let (client, chatClients) := getChatClient account chatClients in
  let spaceName := resolveSpaceName to in
  let prefix :=
    GoogleChatAccountConfig.messagePrefix (ResolvedGoogleChatAccount.config account) in
  let formattedText :=
    match whenTruthy prefix with
    | Some prefix => prefix ++ [SP] ++ text
    | None => text
    end in
  let requestBody :=
    RequestBody.mk (Some formattedText) None (whenTruthy threadKey) in
  (createMessage client spaceName requestBody, chatClients).

Definition sendGoogleChatCard (to : jsstr) (card : CardWithId)
    (account : ResolvedGoogleChatAccount.t)
    (threadKey text : option jsstr)
    (chatClients : gmap (list N) Client)
    : (Failure + SendGoogleChatResult) * gmap (list N) Client :=
  let (client, chatClients) := getChatClient account chatClients in
  let spaceName := resolveSpaceName to in
  let requestBody :=
    RequestBody.mk (whenTruthy text) (Some [card]) (whenTruthy threadKey) in
  (createMessage client spaceName requestBody, chatClients).

(** The card of [sendGoogleChatMedia]; [now] is [Date.now()] as the
    template literal prints it. *)
Definition mediaCard (now mediaUrl : jsstr) (caption : option jsstr) : CardWithId :=
  let widgets := [image mediaUrl (nullish caption (str "Image"))] in
  let widgets :=
    match whenTruthy caption with
    | Some caption => textParagraph caption :: widgets
    | None => widgets
    end in
  mkCard (str "media-" ++ now) [widgets].

Definition sendGoogleChatMedia (now : jsstr) (to mediaUrl : jsstr)
    (account : ResolvedGoogleChatAccount.t)
    (caption threadKey : option jsstr)
    (chatClients : gmap (list N) Client)
    : (Failure + SendGoogleChatResult) * gmap (list N) Client :=
  sendGoogleChatCard to (mediaCard now mediaUrl caption) account threadKey None
    chatClients.

End Api.

End Outbound.

(* ===================================================================== *)
(** * The provider plugin: outbound delivery *)
(* ===================================================================== *)

Module PluginOutbound.

(** The result of [outbound.resolveTarget]. *)
Inductive Target : Type :=
| ok (to : jsstr)
| error (message : jsstr).

Definition resolveTarget (to : option jsstr) : Target :=
  let trimmed := option_map trim to in
  match Outbound.whenTruthy trimmed with
  | None => error (str "Delivering to Google Chat requires --to <spaceId>")
  | Some trimmed => ok trimmed
  end.

(** [{ provider: "googlechat", ...result }] *)
Record Delivery : Type := mkDelivery {
  provider : jsstr;
  result : Outbound.SendGoogleChatResult
}.

Section Api.

Context {Client Failure : Type}.
Variable chat : option jsstr -> Client.
Variable create : Client -> Outbound.CreateParams -> Failure + option jsstr.
Variable normalizeAccountId : option jsstr -> jsstr.

Definition tagged (r : Failure + Outbound.SendGoogleChatResult)
    : Failure + Delivery :=
  match r with
  | inl failure => inl failure
  | inr result => inr (mkDelivery (str "googlechat") result)
  end.

(** [outbound.sendText] *)
Definition sendText (to text : jsstr) (accountId : option jsstr)
    (cfg : ClawdbotConfig.t) (replyToId : option jsstr)
    (chatClients : gmap (list N) Client)
    : (Failure + Delivery) * gmap (list N) Client :=
  let account := resolveGoogleChatAccount normalizeAccountId cfg accountId in
  let (result, chatClients) :=
    Outbound.sendGoogleChatText chat create to text account replyToId None
      chatClients in
  (tagged result, chatClients).

(** [outbound.sendMedia]; [now] is [Date.now()] as printed. *)
Definition sendMedia (now : jsstr) (to : jsstr) (text mediaUrl : option jsstr)
    (accountId : option jsstr) (cfg : ClawdbotConfig.t)
    (replyToId : option jsstr) (chatClients : gmap (list N) Client)
    : (Failure + Delivery) * gmap (list N) Client :=
  let account := resolveGoogleChatAccount normalizeAccountId cfg accountId in
  let (result, chatClients) :=
    Outbound.sendGoogleChatMedia chat create now to (nullish mediaUrl [])
      account text replyToId chatClients in
  (tagged result, chatClients).

End Api.

End PluginOutbound.

(* ===================================================================== *)
(** * monitor.ts: starting and stopping the pull transport *)
(* ===================================================================== *)

Module MonitorStart.

(** The listeners of a subscription, an [EventEmitter]: [on] appends a
    listener, [removeListener] removes the most recently added instance
    of it, if there is one. *)
Inductive EventName : Type := message | error.

#[global] Instance EventName_eq_dec : EqDecision EventName.
Proof. solve_decision. Defined.

Section Emitter.

Context {Handler : Type} `{EqDecision Handler}.

Definition on (name : EventName) (h : Handler)
    (listeners : list (EventName * Handler)) : list (EventName * Handler) :=
  listeners ++ [(name, h)].

(** Removal of the first instance, used on the reversed list. *)
Fixpoint removeFirst (x : EventName * Handler)
    (l : list (EventName * Handler)) : list (EventName * Handler) :=
  match l with
  | [] => []
  | y :: l' => if decide (x = y) then l' else y :: removeFirst x l'
  end.

Definition removeListener (name : EventName) (h : Handler)
    (listeners : list (EventName * Handler)) : list (EventName * Handler) :=
  rev (removeFirst (name, h) (rev listeners)).

(** The two closures that [monitorGoogleChatProvider] creates. *)
Variable messageHandler errorHandler : Handler.

Definition cleanup (listeners : list (EventName * Handler))
    : list (EventName * Handler) :=
  removeListener error errorHandler
    (removeListener message messageHandler listeners).

(** The outcome of starting: the [Error] thrown by the guard, or the
    listeners of the subscription when the function returns, together
    with whether [cleanup] was left registered on the abort signal. *)
Inductive Start : Type :=
| configError (text : jsstr)
| started (listeners : list (EventName * Handler)) (onAbort : bool).

(** [monitorGoogleChatProvider]; [listeners] are those of the
    subscription object and [aborted] is [abortSignal.aborted]. *)
Definition monitorGoogleChatProvider (account : ResolvedGoogleChatAccount.t)
    (aborted : bool) (listeners : list (EventName * Handler)) : Start :=
  if negb (truthy (ResolvedGoogleChatAccount.projectId account))
     || negb (truthy (ResolvedGoogleChatAccount.subscriptionName account))
  then
    configError (str "Google Chat account "
                 ++ ResolvedGoogleChatAccount.accountId account
                 ++ str " missing projectId or subscriptionName")
  else
    let listeners := on message messageHandler listeners in
    let listeners := on error errorHandler listeners in
    if aborted then started (cleanup listeners) false
    else started listeners true.

End Emitter.

End MonitorStart.

(* ===================================================================== *)
(** * Properties of the string primitives *)
(* ===================================================================== *)

(** A string made of white space only. *)
Definition allWhiteSpace (s : jsstr) : Prop :=
  Forall (fun c => isWhiteSpace c = true) s.

(** [chunks] put back together with the separator that followed each. *)
Fixpoint reassemble (chunks seps : list jsstr) : jsstr :=
  match chunks, seps with
  | [], _ => []
  | c :: chunks', [] => c ++ reassemble chunks' []
  | c :: chunks', s :: seps' => c ++ s ++ reassemble chunks' seps'
  end.

(** ["x".repeat(count)] *)
Definition strRepeat (s : jsstr) (count : Z) : jsstr :=
  concat (replicate (Z.to_nat count) s).

(** The text of the chunking example:
    ["line one\nline two\n" + "x".repeat(5000)]. *)
Definition exampleText : jsstr :=
  str "line one" ++ [LF] ++ str "line two" ++ [LF] ++ strRepeat (str "x") 5000.

(** A canonical message with the sender's email replaced. *)
Definition withEmail {Timestamp : Type} (email : option jsstr)
    (message : Normalized.t Timestamp) : Normalized.t Timestamp :=
  let sender := Normalized.sender message in
  Normalized.mk
    (Normalized.provider message)
    (Normalized.accountId message)
    (Normalized.messageId message)
    (Normalized.timestamp message)
    (Normalized.Sender.mk (Normalized.Sender.id sender)
       (Normalized.Sender.name sender) email)
    (Normalized.chat message)
    (Normalized.thread message)
    (Normalized.content message)
    (Normalized.raw message).

(** The fields [normalizeMessage] reads through: a message is complete
    when it carries a sender and a space, each with its resource name. *)
Definition complete (msg : Message.t) : bool :=
  match Message.sender msg, Message.space msg with
  | Some sender, Some space =>
      bool_decide (is_Some (Sender.name sender))
      && bool_decide (is_Some (Space.name space))
  | _, _ => false
  end.

(** The events on which [normalizeMessage] throws: a MESSAGE event whose
    message has no sender, or whose sender is not a bot while the space,
    its name or the sender's name is missing. *)
Definition raises (event : Event.t) : bool :=
  strictEq (Event.type event) "MESSAGE"
  && match Event.message event with
     | None => false
     | Some msg =>
         match Message.sender msg with
         | None => true
         | Some sender =>
             negb (strictEq (Sender.type sender) "BOT")
             && match Message.space msg with
                | None => true
                | Some space =>
                    bool_decide (Space.name space = None)
                    || bool_decide (Sender.name sender = None)
                end
         end
     end.

(** A response whose body is a text that mentions [needle]. *)
Definition mentions (needle : jsstr) (r : WebhookServer.Response) : Prop :=
  exists text : jsstr,
    WebhookServer.body r = WebhookServer.JsonText text
    /\ strIncludes text needle = true.

(** Sample data for the worked examples. *)
Definition sampleConfig (dmPolicy : string) (allowFrom : list jsstr)
    : GoogleChatAccountConfig.t :=
  GoogleChatAccountConfig.mk None None None None None
    (Some (str dmPolicy)) (Some allowFrom) None None None None None None.

Definition sampleAccount (config : GoogleChatAccountConfig.t)
    : ResolvedGoogleChatAccount.t :=
  ResolvedGoogleChatAccount.mk (str "default") true None [] [] None config.

Definition emptyEvent : Event.t := Event.mk None None None None None.

Definition sampleDM (email : option jsstr) : Normalized.t Z :=
  Normalized.mk (str "googlechat") (str "default")
    (Some (str "spaces/AAA/messages/1")) 0
    (Normalized.Sender.mk (str "123") (Some (str "Ann")) email)
    (Normalized.Chat.mk (str "AAA") (str "AAA") Normalized.dm)
    None (Normalized.Content.mk (str "hi")) emptyEvent.

(** [{ type: "ADDED_TO_SPACE", user: { displayName: "Ann" } }] *)
Definition addedToSpaceAnn : Event.t :=
  Event.mk (Some (str "ADDED_TO_SPACE")) None None
    (Some (User.mk None (Some (str "Ann")) None)) None.

(** A MESSAGE event whose message has a space but no sender. *)
Definition messageWithoutSender : Event.t :=
  Event.mk (Some (str "MESSAGE")) None
    (Some (Message.mk (Some (str "spaces/AAA/messages/1")) None None
             (Some (str "hi"))
             (Some (Space.mk (Some (str "spaces/AAA")) (Some (str "DM")) None))
             None None None))
    None None.

(** A stand-in for [normalizeAccountId] of routing/session-key.js, used
    only to instantiate the examples: an absent id becomes the default. *)
Definition sampleNormalizeAccountId (accountId : option jsstr) : jsstr :=
  nullish accountId (str "default").

(** Configurations without accounts: no [googlechat] section at all,
    one that only switches the provider off, and one that sets the
    provider-level project and subscription. *)
Definition noProviderConfig : ClawdbotConfig.t := ClawdbotConfig.mk None.

Definition disabledProviderConfig : ClawdbotConfig.t :=
  ClawdbotConfig.mk (Some (GoogleChatConfig.mk None
    (GoogleChatAccountConfig.mk None (Some false) None None None None None
       None None None None None None))).

Definition providerLevelConfig : ClawdbotConfig.t :=
  ClawdbotConfig.mk (Some (GoogleChatConfig.mk None
    (GoogleChatAccountConfig.mk None None (Some (str "my-project"))
       (Some (str "projects/my-project/subscriptions/chat")) None None None
       None None None None None None))).

(** The provider-level fields of a configuration ([{}] without a
    [googlechat] section). *)
Definition providerBase (cfg : ClawdbotConfig.t) : GoogleChatAccountConfig.t :=
  match ClawdbotConfig.googlechat cfg with
  | Some googlechat => GoogleChatConfig.base googlechat
  | None => GoogleChatAccountConfig.empty
  end.

(** A MESSAGE event in a direct-message space, from a sender of the
    given type. *)
Definition sampleMessageEvent (senderType : string) : Event.t :=
  Event.mk (Some (str "MESSAGE")) None
    (Some (Message.mk (Some (str "spaces/AAA/messages/1"))
             (Some (Sender.mk (Some (str "users/123")) (Some (str "Ann"))
                      (Some (str "a@x.com")) (Some (str senderType))))
             (Some (str "2024-01-01T00:00:00Z")) (Some (str "hi"))
             (Some (Space.mk (Some (str "spaces/AAA")) (Some (str "DM")) None))
             None None None))
    None None.

(** Code units of the Basic Latin block, where [toLowerCase] is modelled
    exactly, and strings with a capital letter A-Z. *)
Definition isAscii (s : jsstr) : Prop := Forall (fun c => (c < 128)%N) s.

Definition hasCapital (s : jsstr) : Prop :=
  Exists (fun c => (65 <= c <= 90)%N) s.

(** A configuration with provider-level project and subscription and
    one account, "work", whose override sets its own project. *)
Definition workOverride : GoogleChatAccountConfig.t :=
  GoogleChatAccountConfig.mk None (Some true) (Some (str "work-project"))
    None None None None None None None None None None.

Definition workAccounts : gmap (list N) GoogleChatAccountConfig.t :=
  {[ str "work" := workOverride ]}.

Definition workProvider : GoogleChatConfig.t :=
  GoogleChatConfig.mk (Some workAccounts)
    (GoogleChatAccountConfig.mk None None (Some (str "my-project"))
       (Some (str "projects/my-project/subscriptions/chat")) None None None
       None None None None None None).

Definition workConfig : ClawdbotConfig.t := ClawdbotConfig.mk (Some workProvider).

Lemma len_nonneg (s : jsstr) : 0 <= len s.
Proof. unfold len. lia. Qed.

Lemma len_app (s t : jsstr) : len (s ++ t) = len s + len t.
Proof. unfold len. rewrite length_app. lia. Qed.

Lemma trimStart_split (s : jsstr) : leadingWhiteSpace s ++ trimStart s = s.
Proof.
  induction s as [|c s IH]; simpl; [reflexivity|].
  destruct (isWhiteSpace c); simpl; [now rewrite IH | reflexivity].
Qed.

Lemma leadingWhiteSpace_all (s : jsstr) : allWhiteSpace (leadingWhiteSpace s).
Proof.
  unfold allWhiteSpace.
  induction s as [|c s IH]; simpl; [constructor|].
  destruct (isWhiteSpace c) eqn:E; constructor; assumption.
Qed.

Lemma trimStart_length (s : jsstr) : (length (trimStart s) <= length s)%nat.
Proof.
  induction s as [|c s IH]; simpl; [lia|].
  destruct (isWhiteSpace c); simpl; lia.
Qed.

Lemma trimStart_idem (s : jsstr) : trimStart (trimStart s) = trimStart s.
Proof.
  induction s as [|c s IH]; simpl; [reflexivity|].
  destruct (isWhiteSpace c) eqn:E; [assumption|].
  simpl. now rewrite E.
Qed.

Lemma trimStart_take (s : jsstr) (n : nat) :
  trimStart s = s -> (1 <= n)%nat -> trimStart (take n s) = take n s.
Proof.
  destruct s as [|c s]; intros Hs Hn.
  - now rewrite take_nil.
  - destruct n as [|n]; [lia|]. simpl in *.
    destruct (isWhiteSpace c); [|reflexivity].
    exfalso. pose proof (trimStart_length s) as Hl.
    rewrite Hs in Hl. simpl in Hl. lia.
Qed.

Lemma relIndex_inside (n i : Z) : 0 <= i <= n -> relIndex n i = i.
Proof.
  intros H. unfold relIndex.
  destruct (Z.ltb_spec i 0); lia.
Qed.

Lemma slice_prefix (s : jsstr) (k : Z) :
  0 <= k <= len s -> slice s 0 (Some k) = take (Z.to_nat k) s.
Proof.
  intros H. unfold slice.
  rewrite (relIndex_inside (len s) 0) by (pose proof (len_nonneg s); lia).
  rewrite relIndex_inside by lia.
  simpl. now rewrite Z.sub_0_r.
Qed.

Lemma slice_suffix (s : jsstr) (k : Z) :
  0 <= k <= len s -> slice s k None = drop (Z.to_nat k) s.
Proof.
  intros H. unfold slice.
  rewrite relIndex_inside by lia.
  apply take_ge. rewrite length_drop. unfold len in *. lia.
Qed.

Lemma slice_split (s : jsstr) (k : Z) :
  0 <= k <= len s -> slice s 0 (Some k) ++ slice s k None = s.
Proof.
  intros H. rewrite slice_prefix, slice_suffix by assumption.
  apply take_drop.
Qed.

Lemma lastIndexFrom_range (search s : jsstr) (i start found : Z) :
  0 <= i -> -1 <= found <= start ->
  -1 <= lastIndexFrom search s i start found <= start.
Proof.
  revert i found.
  induction s as [|c s IH]; intros i found Hi Hf; simpl.
  - destruct (Z.leb_spec i start); simpl; [|lia].
    destruct search; simpl; lia.
  - destruct (Z.ltb_spec start i); [lia|].
    apply IH; [lia|]. destruct (startsWith search (c :: s)); lia.
Qed.

Lemma lastIndexOf_range (s search : jsstr) (position : Z) :
  -1 <= lastIndexOf s search position <= Z.max position 0.
Proof. unfold lastIndexOf. apply lastIndexFrom_range; lia. Qed.

(* ===================================================================== *)
(** * Outbound chunking (send.ts) *)
(* ===================================================================== *)

Section Chunking.

Import Send.

Variable maxLength : Z.
Hypothesis maxLength_pos : 1 <= maxLength.

(** With a positive limit the split index lies between half the limit
    (and 1) and the limit. *)
Lemma splitIndex_range (remaining : jsstr) :
  1 <= splitIndex remaining maxLength <= maxLength
  /\ maxLength <= 2 * splitIndex remaining maxLength.
Proof.
  unfold splitIndex. cbv zeta.
  pose proof (lastIndexOf_range remaining [LF] maxLength) as Hn.
  pose proof (lastIndexOf_range remaining [SP] maxLength) as Hs.
  set (a := lastIndexOf remaining [LF] maxLength) in *.
  set (b := lastIndexOf remaining [SP] maxLength) in *.
  destruct ((a =? -1) || (2 * a <? maxLength)) eqn:Ea.
  - destruct ((b =? -1) || (2 * b <? maxLength)) eqn:Eb; [lia|].
    apply orb_false_iff in Eb as [Hb1%Z.eqb_neq Hb2%Z.ltb_ge]. lia.
  - rewrite Ea.
    apply orb_false_iff in Ea as [Ha1%Z.eqb_neq Ha2%Z.ltb_ge]. lia.
Qed.

(** One iteration on a text longer than the limit. *)
Lemma chunkLoop_step (fuel : nat) (remaining : jsstr) (chunks : list jsstr) :
  maxLength < len remaining ->
  chunkLoop (S fuel) maxLength remaining chunks =
  chunkLoop fuel maxLength
    (trimStart (drop (Z.to_nat (splitIndex remaining maxLength)) remaining))
    (chunks ++ [take (Z.to_nat (splitIndex remaining maxLength)) remaining]).
Proof.
  intros Hlong. simpl.
  destruct (Z.ltb_spec 0 (len remaining)); [|lia].
  destruct (Z.leb_spec (len remaining) maxLength); [lia|].
  cbv zeta. pose proof (splitIndex_range remaining) as [Hr _].
  rewrite slice_prefix, slice_suffix by lia. reflexivity.
Qed.

Lemma remainder_shorter (remaining : jsstr) :
  maxLength < len remaining ->
  (length (trimStart (drop (Z.to_nat (splitIndex remaining maxLength)) remaining))
   < length remaining)%nat.
Proof.
  intros Hlong. pose proof (splitIndex_range remaining) as [Hr _].
  pose proof (trimStart_length
                (drop (Z.to_nat (splitIndex remaining maxLength)) remaining)) as Ht.
  rewrite length_drop in Ht. unfold len in Hlong. lia.
Qed.

(** The loop exits within [length remaining + 1] iterations. *)
Lemma chunkLoop_terminates (fuel : nat) :
  forall (remaining : jsstr) (chunks : list jsstr),
    (length remaining < fuel)%nat ->
    is_Some (chunkLoop fuel maxLength remaining chunks).
Proof.
  induction fuel as [|fuel IH]; intros remaining chunks Hfuel; [lia|].
  destruct (Z.ltb_spec maxLength (len remaining)) as [Hlong|Hshort].
  - rewrite chunkLoop_step by assumption.
    apply IH. pose proof (remainder_shorter remaining Hlong). lia.
  - simpl. destruct (Z.ltb_spec 0 (len remaining)); [|eexists; reflexivity].
    destruct (Z.leb_spec (len remaining) maxLength); [|lia].
    eexists; reflexivity.
Qed.

(** The call returns within [length text + 1] iterations. *)
Lemma chunkGoogleChatTextFuel_returns (text : jsstr) :
  exists chunks : list jsstr,
    chunkGoogleChatTextFuel (S (length text)) text maxLength = Some chunks.
Proof.
  unfold chunkGoogleChatTextFuel.
  destruct (len text <=? maxLength); [eexists; reflexivity|].
  destruct (chunkLoop_terminates (S (length text)) text []) as [chunks Hchunks];
    [lia|].
  now exists chunks.
Qed.

(** What the loop appends: chunks within the limit which, with the white
    space trimmed after each, make up the text it started from. *)
Lemma chunkLoop_spec (fuel : nat) :
  forall (remaining : jsstr) (chunks result : list jsstr),
    chunkLoop fuel maxLength remaining chunks = Some result ->
    exists new seps : list jsstr,
      result = chunks ++ new
      /\ length seps = length new
      /\ Forall allWhiteSpace seps
      /\ reassemble new seps = remaining
      /\ Forall (fun c : jsstr => len c <= maxLength) new
      /\ (trimStart remaining = remaining ->
          Forall (fun c : jsstr => trimStart c = c) new).
Proof.
  induction fuel as [|fuel IH]; intros remaining chunks result Hrun;
    [discriminate|].
  destruct (Z.ltb_spec maxLength (len remaining)) as [Hlong|Hshort].
  - rewrite chunkLoop_step in Hrun by assumption.
    pose proof (splitIndex_range remaining) as [Hr _].
    set (k := Z.to_nat (splitIndex remaining maxLength)) in *.
    apply IH in Hrun as (new & seps & -> & Hlen & Hws & Hre & Hle & Hts).
    exists (take k remaining :: new), (leadingWhiteSpace (drop k remaining) :: seps).
    repeat split.
    + now rewrite <- app_assoc.
    + simpl. now rewrite Hlen.
    + constructor; [apply leadingWhiteSpace_all | assumption].
    + simpl. rewrite Hre, trimStart_split. apply take_drop.
    + constructor; [|assumption].
      unfold len. rewrite length_take. lia.
    + intros Hstart. constructor.
      * apply trimStart_take; [assumption | lia].
      * apply Hts, trimStart_idem.
  - simpl in Hrun. destruct (Z.ltb_spec 0 (len remaining)) as [Hne|He].
    + destruct (Z.leb_spec (len remaining) maxLength); [|lia].
      injection Hrun as <-.
      exists [remaining], [[]]. repeat split.
      * repeat constructor.
      * simpl. now rewrite app_nil_r.
      * repeat constructor. assumption.
      * intros Hstart. repeat constructor. assumption.
    + injection Hrun as <-.
      exists [], []. repeat split.
      * now rewrite app_nil_r.
      * constructor.
      * unfold len in He. destruct remaining; [reflexivity | simpl in He; lia].
      * constructor.
      * intros _. constructor.
Qed.

(** The whole run on a text longer than the limit: at least one split,
    and every chunk after the first starts right after trimmed space. *)
Lemma chunkLoop_long (fuel : nat) (text : jsstr) (result : list jsstr) :
  maxLength < len text ->
  chunkLoop fuel maxLength text [] = Some result ->
  exists (first : jsstr) (rest seps : list jsstr),
    result = first :: rest
    /\ length seps = length result
    /\ Forall allWhiteSpace seps
    /\ reassemble result seps = text
    /\ Forall (fun c : jsstr => len c <= maxLength) result
    /\ Forall (fun c : jsstr => trimStart c = c) rest.
Proof.
  intros Hlong Hrun. destruct fuel as [|fuel]; [discriminate|].
  rewrite chunkLoop_step in Hrun by assumption.
  pose proof (splitIndex_range text) as [Hr _].
  set (k := Z.to_nat (splitIndex text maxLength)) in *.
  apply chunkLoop_spec in Hrun as (new & seps & -> & Hlen & Hws & Hre & Hle & Hts).
  exists (take k text), new, (leadingWhiteSpace (drop k text) :: seps).
  repeat split.
  - simpl. now rewrite Hlen.
  - constructor; [apply leadingWhiteSpace_all | assumption].
  - simpl. rewrite Hre, trimStart_split. apply take_drop.
  - constructor; [|assumption].
    unfold len. rewrite length_take. lia.
  - apply Hts, trimStart_idem.
Qed.

End Chunking.

(** More fuel does not change what the loop returns. *)
Lemma chunkLoop_fuel_mono (maxLength : Z) (fuel fuel' : nat) :
  forall (remaining : jsstr) (chunks result : list jsstr),
    (fuel <= fuel')%nat ->
    Send.chunkLoop fuel maxLength remaining chunks = Some result ->
    Send.chunkLoop fuel' maxLength remaining chunks = Some result.
Proof.
  revert fuel'.
  induction fuel as [|fuel IH]; intros fuel' remaining chunks result Hle Hrun;
    [discriminate|].
  destruct fuel' as [|fuel']; [lia|].
  simpl in *.
  destruct (0 <? len remaining); [|assumption].
  destruct (len remaining <=? maxLength); [assumption|].
  apply IH; [lia | assumption].
Qed.

Lemma chunkGoogleChatTextFuel_det (maxLength : Z) (text : jsstr)
    (fuel fuel' : nat) (chunks chunks' : list jsstr) :
  Send.chunkGoogleChatTextFuel fuel text maxLength = Some chunks ->
  Send.chunkGoogleChatTextFuel fuel' text maxLength = Some chunks' ->
  chunks = chunks'.
Proof.
  unfold Send.chunkGoogleChatTextFuel.
  destruct (len text <=? maxLength); [congruence|].
  intros H H'.
  apply (chunkLoop_fuel_mono _ _ (Nat.max fuel fuel')) in H; [|lia].
  apply (chunkLoop_fuel_mono _ _ (Nat.max fuel fuel')) in H'; [|lia].
  congruence.
Qed.

(** C9: for every text and every limit [maxLength >= 1] the chunker
    returns, within [length text + 1] iterations of its loop; whenever
    the remaining text is longer than the limit, the split index is at
    least [max 1 (maxLength / 2)] (and at most the limit), so the
    remainder left for the next iteration is strictly shorter. *)
Theorem chunkGoogleChatText_terminates (text : jsstr) (maxLength : Z) :
  1 <= maxLength ->
  (exists chunks : list jsstr,
      Send.chunkGoogleChatTextFuel (S (length text)) text maxLength = Some chunks)
  /\ (forall remaining : jsstr,
        maxLength < len remaining ->
        let splitAt := Send.splitIndex remaining maxLength in
        Z.max 1 (maxLength / 2) <= splitAt
        /\ maxLength <= 2 * splitAt
        /\ splitAt <= maxLength
        /\ len (trimStart (slice remaining splitAt None)) < len remaining)
  /\ (forall (fuel : nat) (remaining : jsstr) (chunks : list jsstr),
        (length remaining < fuel)%nat ->
        is_Some (Send.chunkLoop fuel maxLength remaining chunks)).
Proof.
  intros Hpos. split; [|split].
  - apply chunkGoogleChatTextFuel_returns. assumption.
  - intros remaining Hlong splitAt. subst splitAt.
    pose proof (splitIndex_range maxLength Hpos remaining) as [[H1 H2] H3].
    repeat split; try lia.
    + apply Z.max_lub; [lia|].
      apply Z.div_le_upper_bound; lia.
    + rewrite slice_suffix by lia.
      pose proof (remainder_shorter maxLength Hpos remaining Hlong).
      unfold len. lia.
  - intros fuel remaining chunks. apply chunkLoop_terminates. assumption.
Qed.

(** The limit 8 on ["hello world foo bar"]: the call returns, and the
    first split is at the space at offset 5. *)
Lemma chunkGoogleChatText_terminates_witness :
  1 <= 8
  /\ (exists chunks : list jsstr,
         Send.chunkGoogleChatTextFuel 20 (str "hello world foo bar") 8 = Some chunks)
  /\ Send.splitIndex (str "hello world foo bar") 8 = 5.
Proof.
  split; [lia|].
  destruct (chunkGoogleChatText_terminates (str "hello world foo bar") 8
              ltac:(lia)) as (Hret & _ & _).
  split; [exact Hret | reflexivity].
Defined.

(** C5, as amended: for every text and every limit [maxLength >= 1]
    (4000 when the argument is left out) the chunker returns chunks, each
    of length at most the limit; a text no longer than the limit comes
    back as the single chunk [text]; and the chunks, each followed by the
    run of white space trimmed after it, make up the text again.  Every
    chunk after a split starts with a character that is not white space. *)
Theorem chunkGoogleChatText_chunks (text : jsstr) (maxLength : option Z) :
  let limit := nullish maxLength Send.defaultMaxLength in
  1 <= limit ->
  Send.defaultMaxLength = 4000
  /\ exists chunks : list jsstr,
      Send.chunkGoogleChatText text maxLength = Some chunks
      /\ (forall (fuel : nat) (chunks' : list jsstr),
             Send.chunkGoogleChatTextFuel fuel text limit = Some chunks' ->
             chunks' = chunks)
      /\ Forall (fun c : jsstr => len c <= limit) chunks
      /\ (len text <= limit -> chunks = [text])
      /\ Forall (fun c : jsstr => trimStart c = c) (tail chunks)
      /\ exists seps : list jsstr,
           length seps = length chunks
           /\ Forall allWhiteSpace seps
           /\ reassemble chunks seps = text.
Proof.
  intros limit Hpos. split; [reflexivity|].
  unfold Send.chunkGoogleChatText. fold limit.
  destruct (chunkGoogleChatTextFuel_returns limit Hpos text) as [chunks Hrun].
  exists chunks. split; [assumption|].
  split.
  { intros fuel chunks' Hrun'.
    eapply chunkGoogleChatTextFuel_det; eassumption. }
  unfold Send.chunkGoogleChatTextFuel in Hrun.
  destruct (Z.leb_spec (len text) limit) as [Hshort|Hlong].
  - injection Hrun as <-. repeat split.
    + repeat constructor. assumption.
    + constructor.
    + exists [[]]. repeat split.
      * repeat constructor.
      * simpl. now rewrite app_nil_r.
  - apply (chunkLoop_long limit Hpos) in Hrun
      as (first & rest & seps & -> & Hlen & Hws & Hre & Hle & Hts);
      [|assumption].
    repeat split; try assumption; [lia|].
    exists seps. repeat split; assumption.
Qed.

(** The limit 8 on ["hello world foo bar"]. *)
Lemma chunkGoogleChatText_chunks_witness :
  1 <= 8
  /\ exists chunks : list jsstr,
      Send.chunkGoogleChatText (str "hello world foo bar") (Some 8) = Some chunks
      /\ Forall (fun c : jsstr => len c <= 8) chunks.
Proof.
  split; [lia|].
  destruct (chunkGoogleChatText_chunks (str "hello world foo bar") (Some 8)
              ltac:(simpl; lia)) as (_ & chunks & Hrun & _ & Hle & _).
  exists chunks. split; [exact Hrun | exact Hle].
Defined.

(** With the limit 0 no iteration on a text that starts with a visible
    character makes progress. *)
Lemma chunkLoop_zero_limit (fuel : nat) (chunks : list jsstr) :
  Send.chunkLoop fuel 0 (str "a") chunks = None.
Proof.
  revert chunks. induction fuel as [|fuel IH]; intros chunks; [reflexivity|].
  change (Send.chunkLoop fuel 0 (str "a") (chunks ++ [[]]) = None).
  apply IH.
Qed.

(** C5, as stated, fails outside positive limits: with the limit 0 the
    call on ["a"] never returns, and with the limit -1 the call on a
    single newline returns one (empty) chunk, longer than the limit. *)
Lemma chunkGoogleChatText_nonpositive_limit :
  ~ (exists chunks : list jsstr,
        Send.chunkGoogleChatTextReturns (str "a") 0 chunks)
  /\ Send.chunkGoogleChatTextReturns [LF] (-1) [[]]
  /\ ~ (len [] <= -1).
Proof.
  split; [|split].
  - intros (chunks & fuel & Hrun).
    unfold Send.chunkGoogleChatTextFuel in Hrun. simpl in Hrun.
    rewrite chunkLoop_zero_limit in Hrun. discriminate.
  - exists 2%nat. reflexivity.
  - unfold len. simpl. lia.
Qed.

(** C6, as amended: on ["line one\nline two\n" + "x".repeat(5000)] with
    the limit 4000 the last newline within the limit is at offset 17 and
    the last space at offset 13, both before half the limit, so the text
    is hard-split at offset 4000: the first chunk is the two lines, each
    with its newline, followed by 3982 x's, and the second chunk is the
    remaining 1018 x's.  Both lines are intact in the first chunk. *)
Theorem chunkGoogleChatText_example :
  lastIndexOf exampleText [LF] 4000 = 17
  /\ lastIndexOf exampleText [SP] 4000 = 13
  /\ Send.splitIndex exampleText 4000 = 4000
  /\ Send.chunkGoogleChatText exampleText (Some 4000)
     = Some [ str "line one" ++ [LF] ++ str "line two" ++ [LF]
                ++ strRepeat (str "x") 3982;
              strRepeat (str "x") 1018 ].
Proof. repeat split; vm_compute; reflexivity. Qed.

(** C6, as stated, fails: the first chunk is not the text up to the last
    newline before offset 4000. *)
Lemma chunkGoogleChatText_example_not_at_newline :
  lastIndexOf exampleText [LF] 4000 = 17
  /\ Send.splitIndex exampleText 4000 <> 17
  /\ ~ (exists rest : list jsstr,
           Send.chunkGoogleChatText exampleText (Some 4000)
           = Some (slice exampleText 0 (Some 17) :: rest)).
Proof.
  split; [vm_compute; reflexivity|]. split.
  - assert (E : Send.splitIndex exampleText 4000 = 4000)
      by (vm_compute; reflexivity).
    rewrite E. lia.
  - intros [rest Hrun].
    assert (E : (fun chunks => len <$> head chunks)
                  <$> Send.chunkGoogleChatText exampleText (Some 4000)
                = Some (Some 4000)) by (vm_compute; reflexivity).
    rewrite Hrun in E. simpl in E.
    assert (E' : len (slice exampleText 0 (Some 17)) = 17)
      by (vm_compute; reflexivity).
    rewrite E' in E. discriminate.
Qed.

(* ===================================================================== *)
(** * Access policy (monitor.ts) *)
(* ===================================================================== *)

Section Policy.

Context {Timestamp : Type}.
Implicit Types (message : Normalized.t Timestamp)
               (account : ResolvedGoogleChatAccount.t).

Lemma str_policy_distinct :
  str "disabled" <> str "open" /\ str "disabled" <> str "allowlist"
  /\ str "disabled" <> str "pairing" /\ str "open" <> str "allowlist"
  /\ str "open" <> str "pairing" /\ str "allowlist" <> str "pairing".
Proof. repeat split; discriminate. Qed.

(** The decision under each policy string. *)
Lemma checkMessagePolicy_cases message account :
  Monitor.checkMessagePolicy message account =
  let config := ResolvedGoogleChatAccount.config account in
  let policy := Monitor.policy message account in
  if bool_decide (policy = str "open") then true
  else if bool_decide (policy = str "allowlist") then
    match Normalized.Chat.type (Normalized.chat message) with
    | Normalized.dm =>
        includes (nullish (GoogleChatAccountConfig.allowFrom config) [])
          (nullish (Normalized.Sender.email (Normalized.sender message)) [])
    | Normalized.group =>
        includes (nullish (GoogleChatAccountConfig.allowSpaces config) [])
          (Normalized.Chat.id (Normalized.chat message))
    end
  else false.
Proof.
  unfold Monitor.checkMessagePolicy. cbv zeta.
  destruct str_policy_distinct as (? & ? & ? & ? & ? & ?).
  repeat case_bool_decide; try reflexivity; congruence.
Qed.

(** C2: the policy kind follows the chat type, a direct message using
    [dmPolicy] (pairing when unset) and a group message [spacePolicy]
    (disabled when unset); "disabled" denies every message, "open"
    allows every message, "pairing" denies every message, and so does
    any string that is none of the four kinds. *)
Theorem checkMessagePolicy_kinds message account :
  let config := ResolvedGoogleChatAccount.config account in
  let decision := Monitor.checkMessagePolicy message account in
  Monitor.policy message account
  = match Normalized.Chat.type (Normalized.chat message) with
    | Normalized.dm =>
        nullish (GoogleChatAccountConfig.dmPolicy config) (str "pairing")
    | Normalized.group =>
        nullish (GoogleChatAccountConfig.spacePolicy config) (str "disabled")
    end
  /\ (Monitor.policy message account = str "disabled" -> decision = false)
  /\ (Monitor.policy message account = str "open" -> decision = true)
  /\ (Monitor.policy message account = str "pairing" -> decision = false)
  /\ (Monitor.policy message account <> str "open" ->
      Monitor.policy message account <> str "allowlist" -> decision = false)
  /\ (Normalized.Chat.type (Normalized.chat message) = Normalized.dm ->
      GoogleChatAccountConfig.dmPolicy config = None -> decision = false)
  /\ (Normalized.Chat.type (Normalized.chat message) = Normalized.group ->
      GoogleChatAccountConfig.spacePolicy config = None -> decision = false).
Proof.
  intros config decision. subst decision.
  destruct str_policy_distinct as (? & ? & ? & ? & ? & ?).
  split; [reflexivity|].
  rewrite checkMessagePolicy_cases. cbv zeta.
  repeat split; intros;
    repeat match goal with
           | H : Normalized.Chat.type _ = _ |- _ =>
               unfold Monitor.policy; rewrite H; clear H
           | H : GoogleChatAccountConfig.dmPolicy _ = None |- _ =>
               fold config; rewrite H; clear H; simpl
           | H : GoogleChatAccountConfig.spacePolicy _ = None |- _ =>
               fold config; rewrite H; clear H; simpl
           end;
    repeat case_bool_decide; try reflexivity; congruence.
Qed.

(** C1, as amended: under the "allowlist" kind a direct message is
    allowed iff the sender's email, exactly as the message carries it
    (no case folding, no trimming; the empty string when it is absent),
    is an element of [allowFrom], and a group message iff the chat id
    is an element of [allowSpaces]. *)
Theorem checkMessagePolicy_allowlist message account :
  Monitor.policy message account = str "allowlist" ->
  let config := ResolvedGoogleChatAccount.config account in
  Monitor.checkMessagePolicy message account = true <->
  match Normalized.Chat.type (Normalized.chat message) with
  | Normalized.dm =>
      nullish (Normalized.Sender.email (Normalized.sender message)) []
      ∈ nullish (GoogleChatAccountConfig.allowFrom config) []
  | Normalized.group =>
      Normalized.Chat.id (Normalized.chat message)
      ∈ nullish (GoogleChatAccountConfig.allowSpaces config) []
  end.
Proof.
  intros Hkind config.
  destruct str_policy_distinct as (? & ? & ? & ? & ? & ?).
  rewrite checkMessagePolicy_cases. cbv zeta. rewrite Hkind.
  rewrite bool_decide_eq_false_2 by congruence.
  rewrite bool_decide_eq_true_2 by reflexivity.
  unfold includes.
  destruct (Normalized.Chat.type (Normalized.chat message));
    apply bool_decide_eq_true.
Qed.

(** C10: under the "allowlist" DM policy a direct message whose sender
    has no email is decided as if the email were the empty string: it
    is allowed iff [allowFrom] contains the empty string. *)
Theorem checkMessagePolicy_no_email message account :
  Normalized.Chat.type (Normalized.chat message) = Normalized.dm ->
  GoogleChatAccountConfig.dmPolicy (ResolvedGoogleChatAccount.config account)
  = Some (str "allowlist") ->
  Normalized.Sender.email (Normalized.sender message) = None ->
  (Monitor.checkMessagePolicy message account = true <->
   [] ∈ nullish (GoogleChatAccountConfig.allowFrom
                   (ResolvedGoogleChatAccount.config account)) [])
  /\ Monitor.checkMessagePolicy message account
     = Monitor.checkMessagePolicy (withEmail (Some []) message) account.
Proof.
  intros Hdm Hkind Hemail.
  destruct str_policy_distinct as (? & ? & ? & ? & ? & ?).
  rewrite !checkMessagePolicy_cases. cbv zeta.
  unfold Monitor.policy, withEmail. simpl.
  rewrite Hdm, Hkind, Hemail. simpl.
  split; [apply bool_decide_eq_true | reflexivity].
Qed.

End Policy.

(** The example of the spec: with [allowFrom = ["a@x.com"]] a direct
    message from a@x.com is allowed and one from b@x.com is denied. *)
Lemma checkMessagePolicy_allowlist_witness :
  let account := sampleAccount (sampleConfig "allowlist" [str "a@x.com"]) in
  Monitor.checkMessagePolicy (sampleDM (Some (str "a@x.com"))) account = true
  /\ Monitor.checkMessagePolicy (sampleDM (Some (str "b@x.com"))) account = false.
Proof.
  intros account. split.
  - apply (checkMessagePolicy_allowlist (sampleDM (Some (str "a@x.com"))) account);
      [reflexivity|].
    simpl. apply list_elem_of_here.
  - apply not_true_is_false. intros Hallow.
    apply (checkMessagePolicy_allowlist (sampleDM (Some (str "b@x.com"))) account)
      in Hallow; [|reflexivity].
    simpl in Hallow. apply list_elem_of_singleton in Hallow. discriminate.
Defined.

(** C1, as stated, fails: the email is compared as it stands.  The
    normalised form of ["A@x.com"] and of ["a@x.com "] is the allowlist
    entry ["a@x.com"], yet both senders are denied. *)
Lemma checkMessagePolicy_allowlist_not_normalized :
  let account := sampleAccount (sampleConfig "allowlist" [str "a@x.com"]) in
  Plugin.normalizeEntry (str "A@x.com") = str "a@x.com"
  /\ Monitor.checkMessagePolicy (sampleDM (Some (str "A@x.com"))) account = false
  /\ Plugin.normalizeEntry (str "a@x.com ") = str "a@x.com"
  /\ Monitor.checkMessagePolicy (sampleDM (Some (str "a@x.com "))) account = false.
Proof. repeat split; vm_compute; reflexivity. Qed.

(** A sender without email is let in by an allowlist that holds the
    empty string, and by no other. *)
Lemma checkMessagePolicy_no_email_witness :
  Monitor.checkMessagePolicy (sampleDM None)
    (sampleAccount (sampleConfig "allowlist" [str ""; str "a@x.com"])) = true
  /\ Monitor.checkMessagePolicy (sampleDM None)
       (sampleAccount (sampleConfig "allowlist" [str "a@x.com"])) = false.
Proof.
  split.
  - destruct (checkMessagePolicy_no_email (sampleDM None)
                (sampleAccount (sampleConfig "allowlist" [str ""; str "a@x.com"]))
                eq_refl eq_refl eq_refl) as [[_ Hallow] _].
    apply Hallow. simpl. apply list_elem_of_here.
  - destruct (checkMessagePolicy_no_email (sampleDM None)
                (sampleAccount (sampleConfig "allowlist" [str "a@x.com"]))
                eq_refl eq_refl eq_refl) as [[Hallow _] _].
    apply not_true_is_false. intros Hyes. apply Hallow in Hyes.
    simpl in Hyes. apply list_elem_of_singleton in Hyes. discriminate.
Defined.

(* ===================================================================== *)
(** * Normalisation (monitor.ts and webhook-server.ts) *)
(* ===================================================================== *)

Section Normalizer.

Context {Timestamp : Type}.
Variable dateGetTime : option jsstr -> Timestamp.

(** The two copies of the normaliser, case by case. *)
Lemma normalizeMessage_copies (event : Event.t) (accountId : jsstr) :
  WebhookServer.normalizeMessage dateGetTime event accountId
  = Monitor.normalizeMessage dateGetTime event accountId.
Proof.
  unfold Monitor.normalizeMessage, WebhookServer.normalizeMessage.
  destruct (strictEq (Event.type event) "MESSAGE"); simpl; [|reflexivity].
  destruct (Event.message event) as [msg|]; [|reflexivity].
  destruct (Message.sender msg) as [sender|]; [|reflexivity].
  reflexivity.
Qed.

(** C3: on every raw event and account id the normaliser of the pull
    transport and the normaliser of the webhook transport have the same
    outcome: the same canonical message, absent for the same events, and
    a throw on the same events. *)
Theorem normalizeMessage_transports_agree (event : Event.t) (accountId : jsstr) :
  Monitor.normalizeMessage dateGetTime event accountId
  = WebhookServer.normalizeMessage dateGetTime event accountId
  /\ (Monitor.normalizeMessage dateGetTime event accountId = Ok None <->
      WebhookServer.normalizeMessage dateGetTime event accountId = Ok None)
  /\ (Monitor.normalizeMessage dateGetTime event accountId = Throw TypeError <->
      WebhookServer.normalizeMessage dateGetTime event accountId = Throw TypeError).
Proof.
  pose proof (normalizeMessage_copies event accountId) as E.
  split; [symmetry; exact E|]. now rewrite E.
Qed.

(** Outcome of the pull normaliser by cases on the event. *)
Lemma monitor_normalizeMessage_outcome (event : Event.t) (accountId : jsstr) :
  (raises event = true ->
   Monitor.normalizeMessage dateGetTime event accountId = Throw TypeError)
  /\ (raises event = false ->
      exists r, Monitor.normalizeMessage dateGetTime event accountId = Ok r).
Proof.
  unfold raises, Monitor.normalizeMessage.
  destruct (strictEq (Event.type event) "MESSAGE"); simpl;
    [|split; [discriminate | eexists; reflexivity]].
  destruct (Event.message event) as [msg|];
    [|split; [discriminate | eexists; reflexivity]].
  destruct (Message.sender msg) as [sender|]; simpl;
    [|split; [reflexivity | discriminate]].
  destruct (strictEq (Sender.type sender) "BOT"); simpl;
    [split; [discriminate | eexists; reflexivity]|].
  destruct (Message.space msg) as [space|]; simpl;
    [|split; [reflexivity | discriminate]].
  destruct (Space.name space) as [spaceName|]; simpl;
    [|split; [reflexivity | discriminate]].
  destruct (Sender.name sender) as [senderName|]; simpl;
    split; try discriminate; try reflexivity.
  eexists; reflexivity.
Qed.

(** C4, as amended: both normalisers return the canonical message or
    absent, without raising, on every event that is not of type MESSAGE,
    that has no message, whose sender is a bot, or whose message carries
    a sender and a space together with their resource names; they raise
    a TypeError exactly on a MESSAGE event whose message lacks the
    sender, or, for a sender that is not a bot, lacks the space, the
    space's name or the sender's name. *)
Theorem normalizeMessage_outcome (event : Event.t) (accountId : jsstr) :
  let pull := Monitor.normalizeMessage dateGetTime event accountId in
  let push := WebhookServer.normalizeMessage dateGetTime event accountId in
  (pull = Throw TypeError <-> raises event = true)
  /\ ((exists r, pull = Ok r) <-> raises event = false)
  /\ push = pull
  /\ (Event.type event <> Some (str "MESSAGE") -> pull = Ok None)
  /\ (Event.message event = None -> pull = Ok None)
  /\ (forall msg : Message.t,
        Event.message event = Some msg -> complete msg = true ->
        exists r, pull = Ok r).
Proof.
  intros pull push.
  destruct (monitor_normalizeMessage_outcome event accountId) as [Hthrow Hok].
  assert (Hraise : pull = Throw TypeError <-> raises event = true).
  { split; [|exact Hthrow].
    intros Hp. destruct (raises event) eqn:E; [reflexivity|].
    destruct (Hok eq_refl) as [r Hr]. subst pull. congruence. }
  assert (Hret : (exists r, pull = Ok r) <-> raises event = false).
  { split; [|exact Hok].
    intros [r Hr]. destruct (raises event) eqn:E; [|reflexivity].
    specialize (Hthrow eq_refl). subst pull. congruence. }
  split; [exact Hraise|]. split; [exact Hret|].
  split.
  { apply normalizeMessage_copies. }
  split; [|split].
  - intros Htype. subst pull. unfold Monitor.normalizeMessage.
    unfold strictEq. rewrite bool_decide_eq_false_2 by assumption. reflexivity.
  - intros Hmsg. subst pull. unfold Monitor.normalizeMessage.
    rewrite Hmsg. destruct (strictEq (Event.type event) "MESSAGE"); reflexivity.
  - intros msg Hmsg Hcomplete. apply Hret.
    unfold raises, complete in *. rewrite Hmsg.
    destruct (Message.sender msg) as [sender|]; [|discriminate].
    destruct (Message.space msg) as [space|]; [|discriminate].
    apply andb_true_iff in Hcomplete as [Hs Hp].
    apply bool_decide_eq_true in Hs as [sn Hs].
    apply bool_decide_eq_true in Hp as [pn Hp].
    rewrite Hs, Hp. simpl.
    destruct (strictEq (Event.type event) "MESSAGE"); simpl; [|reflexivity].
    now rewrite andb_false_r.
Qed.

End Normalizer.

(** C4, as stated, fails: a MESSAGE event whose message is present but
    has no sender makes both normalisers raise.  The pull transport then
    nacks the delivery and the webhook answers with status 500. *)
Lemma normalizeMessage_raises_without_sender :
  let dateGetTime := fun _ : option jsstr => 0 in
  let account := sampleAccount GoogleChatAccountConfig.empty in
  Monitor.normalizeMessage dateGetTime messageWithoutSender (str "default")
  = Throw TypeError
  /\ WebhookServer.normalizeMessage dateGetTime messageWithoutSender (str "default")
     = Throw TypeError
  /\ Monitor.messageHandler dateGetTime account (Ok messageWithoutSender)
     = (Monitor.nack, false)
  /\ WebhookServer.status
       (WebhookServer.response
          (WebhookServer.webhookPost dateGetTime account None messageWithoutSender))
     = 500.
Proof. repeat split. Qed.

(* ===================================================================== *)
(** * The webhook handler (webhook-server.ts) *)
(* ===================================================================== *)

(** C7, as amended: on an event of type ADDED_TO_SPACE, whoever its
    user is, the webhook answers with status 200 and the fixed welcome
    text, which does not mention the user (the text does not contain
    "Ann"), and it builds no canonical message; the normaliser returns
    absent on such an event. *)
Theorem webhookPost_added_to_space {Timestamp : Type}
    (dateGetTime : option jsstr -> Timestamp)
    (account : ResolvedGoogleChatAccount.t)
    (onMessage : option (Event.t -> Result unit)) (event : Event.t) :
  Event.type event = Some (str "ADDED_TO_SPACE") ->
  WebhookServer.webhookPost dateGetTime account onMessage event
  = WebhookServer.mkHandled
      (WebhookServer.mkResponse 200
         (WebhookServer.JsonText WebhookServer.welcomeText))
      None
  /\ WebhookServer.normalizeMessage dateGetTime event
       (ResolvedGoogleChatAccount.accountId account) = Ok None
  /\ strIncludes WebhookServer.welcomeText (str "Ann") = false
  /\ (forall needle : jsstr,
        mentions needle
          (WebhookServer.response
             (WebhookServer.webhookPost dateGetTime account onMessage event))
        <-> strIncludes WebhookServer.welcomeText needle = true).
Proof.
  intros Htype.
  assert (Hpost : WebhookServer.webhookPost dateGetTime account onMessage event
                  = WebhookServer.mkHandled
                      (WebhookServer.mkResponse 200
                         (WebhookServer.JsonText WebhookServer.welcomeText))
                      None).
  { unfold WebhookServer.webhookPost. now rewrite Htype. }
  split; [exact Hpost|]. split; [|split].
  - unfold WebhookServer.normalizeMessage. now rewrite Htype.
  - vm_compute. reflexivity.
  - intros needle. rewrite Hpost. unfold mentions.
    cbn [WebhookServer.body WebhookServer.response]. split.
    + intros (text & Hbody & Hin). injection Hbody as Htext. now subst text.
    + intros Hin. now exists WebhookServer.welcomeText.
Qed.

(** The event [{ type: "ADDED_TO_SPACE", user: { displayName: "Ann" } }]. *)
Lemma webhookPost_added_to_space_witness :
  let handled :=
    WebhookServer.webhookPost (fun _ : option jsstr => 0)
      (sampleAccount GoogleChatAccountConfig.empty) None addedToSpaceAnn in
  WebhookServer.body (WebhookServer.response handled)
  = WebhookServer.JsonText WebhookServer.welcomeText
  /\ WebhookServer.normalized handled = None.
Proof.
  intros handled. subst handled.
  destruct (webhookPost_added_to_space (fun _ : option jsstr => 0)
              (sampleAccount GoogleChatAccountConfig.empty) None addedToSpaceAnn
              eq_refl) as (Hpost & _).
  rewrite Hpost. split; reflexivity.
Defined.

(** C7, as stated, fails: the response to
    [{ type: "ADDED_TO_SPACE", user: { displayName: "Ann" } }] carries
    no text that mentions "Ann". *)
Lemma webhookPost_welcome_does_not_mention_user :
  ~ mentions (str "Ann")
      (WebhookServer.response
         (WebhookServer.webhookPost (fun _ : option jsstr => 0)
            (sampleAccount GoogleChatAccountConfig.empty) None addedToSpaceAnn)).
Proof.
  intros (text & Hbody & Hin).
  change (WebhookServer.JsonText WebhookServer.welcomeText
          = WebhookServer.JsonText text) in Hbody.
  injection Hbody as Htext. subst text.
  vm_compute in Hin. discriminate.
Qed.

(* ===================================================================== *)
(** * Account resolution (accounts.ts) *)
(* ===================================================================== *)

Lemma spread_empty (base : GoogleChatAccountConfig.t) :
  GoogleChatAccountConfig.spread base GoogleChatAccountConfig.empty = base.
Proof. destruct base. reflexivity. Qed.

Lemma truthy_true (s : jsstr) : truthy s = true <-> s <> [].
Proof. destruct s; simpl; split; congruence. Qed.

Section Registry.

Variable DEFAULT_ACCOUNT_ID : jsstr.
Variable normalizeAccountId : option jsstr -> jsstr.
Variable localeSort : list jsstr -> list jsstr.

(** What the spec says of [normalizeAccountId]: an absent id becomes the
    default one; and the default id is a non-empty string. *)
Hypothesis normalizeAccountId_absent : normalizeAccountId None = DEFAULT_ACCOUNT_ID.
Hypothesis DEFAULT_ACCOUNT_ID_nonempty : DEFAULT_ACCOUNT_ID <> [].

(** Without configured ids there is no override for the default id. *)
Lemma resolveAccountConfig_none (cfg : ClawdbotConfig.t) :
  listConfiguredAccountIds cfg = [] ->
  resolveAccountConfig cfg DEFAULT_ACCOUNT_ID = None.
Proof.
  unfold listConfiguredAccountIds, resolveAccountConfig.
  destruct (ClawdbotConfig.googlechat cfg) as [googlechat|]; [|reflexivity].
  destruct (GoogleChatConfig.accounts googlechat) as [accounts|]; [|reflexivity].
  intros Hnone.
  destruct (accounts !! DEFAULT_ACCOUNT_ID) as [override|] eqn:Hlookup;
    [exfalso | reflexivity].
  apply elem_of_map_to_list, list_elem_of_In in Hlookup.
  apply (in_map fst) in Hlookup. simpl in Hlookup.
  assert (Hin : In DEFAULT_ACCOUNT_ID
                  (List.filter truthy (map fst (map_to_list accounts)))).
  { apply filter_In. split; [assumption|].
    now apply truthy_true. }
  rewrite Hnone in Hin. destruct Hin.
Qed.

Lemma merge_no_accounts (cfg : ClawdbotConfig.t) :
  listConfiguredAccountIds cfg = [] ->
  mergeGoogleChatAccountConfig cfg DEFAULT_ACCOUNT_ID = providerBase cfg.
Proof.
  intros Hnone. unfold mergeGoogleChatAccountConfig.
  rewrite (resolveAccountConfig_none cfg Hnone). simpl.
  apply spread_empty.
Qed.

(** C8, as amended: for every configuration without configured accounts
    the only listed id is the synthetic default one, and resolving without
    an account id returns the account of that id built from the
    provider-level fields alone.  It is enabled unless the provider-level
    [enabled] flag is false, and it is usable ([isConfigured]) exactly
    when the provider-level project id and subscription name are both
    non-empty after trimming. *)
Theorem resolveGoogleChatAccount_no_accounts (cfg : ClawdbotConfig.t) :
  listConfiguredAccountIds cfg = [] ->
  let account := resolveGoogleChatAccount normalizeAccountId cfg None in
  let base := providerBase cfg in
  listGoogleChatAccountIds DEFAULT_ACCOUNT_ID localeSort cfg = [DEFAULT_ACCOUNT_ID]
  /\ resolveDefaultGoogleChatAccountId DEFAULT_ACCOUNT_ID localeSort cfg
     = DEFAULT_ACCOUNT_ID
  /\ ResolvedGoogleChatAccount.accountId account = DEFAULT_ACCOUNT_ID
  /\ ResolvedGoogleChatAccount.config account = base
  /\ ResolvedGoogleChatAccount.enabled account
     = notFalse (GoogleChatAccountConfig.enabled base)
  /\ (Plugin.isConfigured account = true <->
      trim (nullish (GoogleChatAccountConfig.projectId base) []) <> []
      /\ trim (nullish (GoogleChatAccountConfig.subscriptionName base) []) <> []).
Proof.
  intros Hnone account base.
  assert (Hids : listGoogleChatAccountIds DEFAULT_ACCOUNT_ID localeSort cfg
                 = [DEFAULT_ACCOUNT_ID]).
  { unfold listGoogleChatAccountIds. now rewrite Hnone. }
  split; [exact Hids|]. split.
  { unfold resolveDefaultGoogleChatAccountId. rewrite Hids.
    unfold includes. rewrite bool_decide_eq_true_2; [reflexivity|].
    apply list_elem_of_here. }
  subst account. unfold resolveGoogleChatAccount. cbv zeta.
  rewrite normalizeAccountId_absent, (merge_no_accounts cfg Hnone).
  fold base. cbn [ResolvedGoogleChatAccount.accountId
                  ResolvedGoogleChatAccount.config
                  ResolvedGoogleChatAccount.enabled].
  split; [reflexivity|]. split; [reflexivity|]. split.
  - unfold base, providerBase.
    destruct (ClawdbotConfig.googlechat cfg) as [googlechat|]; simpl;
      [|reflexivity].
    now destruct (notFalse _).
  - unfold Plugin.isConfigured.
    cbn [ResolvedGoogleChatAccount.projectId
         ResolvedGoogleChatAccount.subscriptionName].
    rewrite andb_true_iff, !truthy_true. reflexivity.
Qed.

End Registry.

(** A configuration that sets project and subscription at the provider
    level and has no accounts: the default account is usable. *)
Lemma resolveGoogleChatAccount_no_accounts_witness :
  let account :=
    resolveGoogleChatAccount sampleNormalizeAccountId providerLevelConfig None in
  ResolvedGoogleChatAccount.accountId account = str "default"
  /\ ResolvedGoogleChatAccount.enabled account = true
  /\ Plugin.isConfigured account = true.
Proof.
  intros account. subst account.
  destruct (resolveGoogleChatAccount_no_accounts (str "default")
              sampleNormalizeAccountId (fun ids => ids)
              eq_refl ltac:(discriminate) providerLevelConfig eq_refl)
    as (_ & _ & Hid & _ & Henabled & Hconfigured).
  split; [exact Hid|]. split; [exact Henabled|].
  apply Hconfigured. split; vm_compute; discriminate.
Defined.

(** C8, as stated, fails: without a [googlechat] section the default
    account is enabled but has neither project nor subscription, so it is
    not usable; and with the provider switched off it is not enabled. *)
Lemma resolveGoogleChatAccount_default_not_usable :
  let account :=
    resolveGoogleChatAccount sampleNormalizeAccountId noProviderConfig None in
  let off :=
    resolveGoogleChatAccount sampleNormalizeAccountId disabledProviderConfig None in
  listConfiguredAccountIds noProviderConfig = []
  /\ ResolvedGoogleChatAccount.accountId account = str "default"
  /\ ResolvedGoogleChatAccount.enabled account = true
  /\ Plugin.isConfigured account = false
  /\ listConfiguredAccountIds disabledProviderConfig = []
  /\ ResolvedGoogleChatAccount.enabled off = false.
Proof. repeat split. Qed.

(* ===================================================================== *)
(** * Further properties: string primitives *)
(* ===================================================================== *)

Lemma startsWith_app (p s : jsstr) : startsWith p (p ++ s) = true.
Proof.
  induction p as [|c p IH]; simpl; [reflexivity|].
  now rewrite N.eqb_refl.
Qed.

Lemma startsWith_char (c : N) (s : jsstr) :
  startsWith [c] s = true <-> head s = Some c.
Proof.
  destruct s as [|x s]; simpl; [split; discriminate|].
  rewrite andb_true_r, N.eqb_eq. split; congruence.
Qed.

Lemma replace_prefix (p s r : jsstr) : replace (p ++ s) p r = r ++ s.
Proof.
  destruct (p ++ s) as [|c t] eqn:E.
  - apply app_eq_nil in E as [-> ->]. simpl. now rewrite app_nil_r.
  - simpl replace. rewrite <- E, startsWith_app.
    now rewrite drop_app_length.
Qed.

Lemma strIncludes_app (a b c : jsstr) : strIncludes (a ++ b ++ c) b = true.
Proof.
  induction a as [|x a IH]; simpl.
  - destruct (b ++ c) as [|y t] eqn:E.
    + apply app_eq_nil in E as [-> _]. reflexivity.
    + simpl. rewrite <- E, startsWith_app. reflexivity.
  - rewrite IH. apply orb_true_r.
Qed.

Lemma trimStart_fixed (s : jsstr) :
  trimStart s = s <-> s = [] \/ exists c t, s = c :: t /\ isWhiteSpace c = false.
Proof.
  destruct s as [|c t]; simpl.
  - split; [now left | reflexivity].
  - destruct (isWhiteSpace c) eqn:E; split.
    + intros H. pose proof (trimStart_length t) as Hl.
      rewrite H in Hl. simpl in Hl. lia.
    + intros [?|(c' & t' & [= -> ->] & Hc)]; congruence.
    + intros _. right. now exists c, t.
    + reflexivity.
Qed.

Lemma trimStart_snoc (s : jsstr) (c : N) :
  isWhiteSpace c = false -> trimStart (s ++ [c]) = trimStart s ++ [c].
Proof.
  intros Hc. induction s as [|x s IH]; simpl; [now rewrite Hc|].
  destruct (isWhiteSpace x); [exact IH | reflexivity].
Qed.

(** [trimEnd] leaves a string without leading white space without
    leading white space. *)
Lemma trimStart_trimEnd (s : jsstr) :
  trimStart s = s -> trimStart (trimEnd s) = trimEnd s.
Proof.
  intros Hs. apply trimStart_fixed in Hs as [->|(c & t & -> & Hc)];
    [reflexivity|].
  unfold trimEnd. simpl rev. rewrite trimStart_snoc by assumption.
  rewrite rev_app_distr. simpl. now rewrite Hc.
Qed.

Lemma trimEnd_idem (s : jsstr) : trimEnd (trimEnd s) = trimEnd s.
Proof. unfold trimEnd. now rewrite rev_involutive, trimStart_idem. Qed.

Lemma trim_idem (s : jsstr) : trim (trim s) = trim s.
Proof.
  unfold trim.
  rewrite (trimStart_trimEnd (trimStart s)) by apply trimStart_idem.
  apply trimEnd_idem.
Qed.

(** An index that [lastIndexFrom] returns is the one it started with or
    the place of an occurrence in range. *)
Lemma lastIndexFrom_sound (search s : jsstr) :
  forall i start found : Z,
    let r := lastIndexFrom search s i start found in
    r = found
    \/ (i <= r <= start
        /\ startsWith search (drop (Z.to_nat (r - i)) s) = true).
Proof.
  induction s as [|x s IH]; intros i start found; simpl.
  - destruct (Z.leb_spec i start); simpl; [|now left].
    destruct (startsWith search []) eqn:E; [|now left].
    right. split; [lia|]. now rewrite Z.sub_diag.
  - destruct (Z.ltb_spec start i); [now left|].
    destruct (IH (i + 1) start
                (if startsWith search (x :: s) then i else found))
      as [Hr|[Hr Hm]]; cbv zeta in *.
    + rewrite Hr. destruct (startsWith search (x :: s)) eqn:E; [|now left].
      right. split; [lia|]. now rewrite Z.sub_diag.
    + right. split; [lia|].
      replace (Z.to_nat (lastIndexFrom search s (i + 1) start
                 (if startsWith search (x :: s) then i else found) - i))
        with (S (Z.to_nat (lastIndexFrom search s (i + 1) start
                 (if startsWith search (x :: s) then i else found) - (i + 1))))
        by lia.
      exact Hm.
Qed.

Lemma lastIndexFrom_lower (search s : jsstr) (i start found : Z) :
  found < i -> found <= lastIndexFrom search s i start found.
Proof.
  intros Hf. destruct (lastIndexFrom_sound search s i start found) as [->|[H _]];
    lia.
Qed.

(** No occurrence in range lies after the index returned. *)
Lemma lastIndexFrom_max (search s : jsstr) :
  forall i start found j : Z,
    i <= j <= start ->
    (Z.to_nat (j - i) <= length s)%nat ->
    startsWith search (drop (Z.to_nat (j - i)) s) = true ->
    j <= lastIndexFrom search s i start found.
Proof.
  induction s as [|x s IH]; intros i start found j Hj Hlen Hm; simpl in *.
  - assert (j = i) as -> by lia. rewrite Z.sub_diag in Hm. simpl in Hm.
    rewrite Hm. destruct (Z.leb_spec i start); simpl; lia.
  - destruct (Z.ltb_spec start i); [lia|].
    destruct (Z.eq_dec j i) as [->|Hne].
    + rewrite Z.sub_diag in Hm. simpl in Hm. rewrite Hm.
      apply lastIndexFrom_lower. lia.
    + apply IH; [lia | lia |].
      replace (Z.to_nat (j - i)) with (S (Z.to_nat (j - (i + 1)))) in Hm by lia.
      exact Hm.
Qed.

(** [lastIndexOf] for a single code unit: the index returned holds the
    unit and no later index within the position does. *)
Lemma lastIndexOf_char (s : jsstr) (c : N) (position : Z) :
  let r := lastIndexOf s [c] position in
  (r = -1 \/ (0 <= r <= Z.max position 0 /\ s !! Z.to_nat r = Some c))
  /\ (forall j : Z, 0 <= j <= position -> s !! Z.to_nat j = Some c -> j <= r).
Proof.
  unfold lastIndexOf. split.
  - destruct (lastIndexFrom_sound [c] s 0 (Z.max position 0) (-1))
      as [Hr|[Hr Hm]]; [now left|].
    right. split; [lia|].
    apply startsWith_char in Hm. rewrite head_lookup, lookup_drop in Hm.
    rewrite Z.sub_0_r, Nat.add_0_r in Hm. exact Hm.
  - intros j Hj Hc. apply lastIndexFrom_max; [lia | |].
    + apply lookup_lt_Some in Hc. lia.
    + apply startsWith_char. rewrite head_lookup, lookup_drop.
      now rewrite Z.sub_0_r, Nat.add_0_r.
Qed.

(* ===================================================================== *)
(** * Further properties: outbound chunking (send.ts) *)
(* ===================================================================== *)

(** X1: where the chunker splits.  With a limit [maxLength >= 1] the
    split index is the limit itself (a hard split) or the place of a
    newline or of a space.  If a newline stands between half the limit
    and the limit, the split is at the last such newline; if none does
    but a space does, at the last such space; otherwise at the limit. *)
Theorem splitIndex_at_separator (remaining : jsstr) (maxLength : Z) :
  1 <= maxLength ->
  let k := Send.splitIndex remaining maxLength in
  let inWindow (j : Z) := maxLength <= 2 * j /\ j <= maxLength in
  (k = maxLength
   \/ remaining !! Z.to_nat k = Some LF
   \/ remaining !! Z.to_nat k = Some SP)
  /\ (forall j : Z,
        inWindow j -> remaining !! Z.to_nat j = Some LF ->
        remaining !! Z.to_nat k = Some LF /\ j <= k)
  /\ ((forall j : Z, inWindow j -> remaining !! Z.to_nat j <> Some LF) ->
      (forall j : Z,
          inWindow j -> remaining !! Z.to_nat j = Some SP ->
          remaining !! Z.to_nat k = Some SP /\ j <= k)
      /\ ((forall j : Z, inWindow j -> remaining !! Z.to_nat j <> Some SP) ->
          k = maxLength)).
Proof.
  intros Hpos k inWindow. subst k inWindow. cbv beta.
  unfold Send.splitIndex. cbv zeta.
  destruct (lastIndexOf_char remaining LF maxLength) as [Ha Hamax].
  destruct (lastIndexOf_char remaining SP maxLength) as [Hb Hbmax].
  cbv zeta in *.
  set (a := lastIndexOf remaining [LF] maxLength) in *.
  set (b := lastIndexOf remaining [SP] maxLength) in *.
  destruct ((a =? -1) || (2 * a <? maxLength)) eqn:Ea.
  - assert (Hnl : forall j : Z,
               (maxLength <= 2 * j /\ j <= maxLength) ->
               remaining !! Z.to_nat j <> Some LF).
    { intros j [Hj1 Hj2] Hc. specialize (Hamax j ltac:(lia) Hc).
      apply orb_true_iff in Ea as [Ea%Z.eqb_eq|Ea%Z.ltb_lt]; lia. }
    destruct ((b =? -1) || (2 * b <? maxLength)) eqn:Eb.
    + assert (Hsp : forall j : Z,
                 (maxLength <= 2 * j /\ j <= maxLength) ->
                 remaining !! Z.to_nat j <> Some SP).
      { intros j [Hj1 Hj2] Hc. specialize (Hbmax j ltac:(lia) Hc).
        apply orb_true_iff in Eb as [Eb%Z.eqb_eq|Eb%Z.ltb_lt]; lia. }
      split; [now left|]. split.
      * intros j Hj Hc. now destruct (Hnl j Hj).
      * intros _. split; [|reflexivity].
        intros j Hj Hc. now destruct (Hsp j Hj).
    + apply orb_false_iff in Eb as [Eb1%Z.eqb_neq Eb2%Z.ltb_ge].
      destruct Hb as [Hb|[Hb1 Hb2]]; [lia|].
      split; [now right; right|]. split.
      * intros j Hj Hc. now destruct (Hnl j Hj).
      * intros _. split.
        -- intros j [Hj1 Hj2] Hc. split; [assumption|].
           apply Hbmax; [lia | assumption].
        -- intros Hsp. destruct (Hsp b); [lia | assumption].
  - rewrite Ea.
    apply orb_false_iff in Ea as [Ea1%Z.eqb_neq Ea2%Z.ltb_ge].
    destruct Ha as [Ha|[Ha1 Ha2]]; [lia|].
    split; [now right; left|]. split.
    + intros j [Hj1 Hj2] Hc. split; [assumption|].
      apply Hamax; [lia | assumption].
    + intros Hnl. destruct (Hnl a); [lia | assumption].
Qed.

(** The limit 8 on ["ab cd\nef gh ij"]: the newline at offset 5 wins
    over the later space at offset 8. *)
Lemma splitIndex_at_separator_witness :
  let text := str "ab cd" ++ [LF] ++ str "ef gh ij" in
  text !! Z.to_nat (Send.splitIndex text 8) = Some LF
  /\ 5 <= Send.splitIndex text 8.
Proof.
  intros text.
  destruct (splitIndex_at_separator text 8 ltac:(lia)) as (_ & Hnl & _).
  apply (Hnl 5); [lia | reflexivity].
Defined.

(** What the loop adds is never an empty chunk, and it adds at most one
    chunk per code unit left. *)
Lemma chunkLoop_nonempty (maxLength : Z) (Hpos : 1 <= maxLength) (fuel : nat) :
  forall (remaining : jsstr) (chunks result : list jsstr),
    Send.chunkLoop fuel maxLength remaining chunks = Some result ->
    exists new : list jsstr,
      result = chunks ++ new
      /\ Forall (fun c : jsstr => c <> []) new
      /\ (length new <= length remaining)%nat
      /\ (remaining <> [] -> new <> []).
Proof.
  induction fuel as [|fuel IH]; intros remaining chunks result Hrun;
    [discriminate|].
  destruct (Z.ltb_spec maxLength (len remaining)) as [Hlong|Hshort].
  - rewrite (chunkLoop_step maxLength Hpos) in Hrun by assumption.
    pose proof (splitIndex_range maxLength Hpos remaining) as [Hr _].
    pose proof (remainder_shorter maxLength Hpos remaining Hlong) as Hless.
    set (k := Z.to_nat (Send.splitIndex remaining maxLength)) in *.
    apply IH in Hrun as (new & -> & Hne & Hcount & _).
    exists (take k remaining :: new). repeat split.
    + now rewrite <- app_assoc.
    + constructor; [|assumption].
      intros E. apply (f_equal length) in E.
      rewrite length_take in E. unfold len in Hlong. simpl in E. lia.
    + simpl. lia.
    + discriminate.
  - simpl in Hrun. destruct (Z.ltb_spec 0 (len remaining)) as [Hne|He].
    + destruct (Z.leb_spec (len remaining) maxLength); [|lia].
      injection Hrun as <-. exists [remaining]. repeat split.
      * repeat constructor. intros ->. unfold len in Hne. simpl in Hne. lia.
      * unfold len in Hne. simpl. lia.
      * discriminate.
    + injection Hrun as <-. exists []. repeat split.
      * now rewrite app_nil_r.
      * constructor.
      * simpl. lia.
      * intros Hn. destruct remaining; [congruence|].
        unfold len in He. simpl in He. lia.
Qed.

(** X2: with a limit [maxLength >= 1] (4000 by default) a non-empty text
    is cut into at least one and at most [length text] chunks, none of
    them empty; the empty text comes back as one empty chunk. *)
Theorem chunkGoogleChatText_no_empty_chunk (text : jsstr) (maxLength : option Z)
    (chunks : list jsstr) :
  1 <= nullish maxLength Send.defaultMaxLength ->
  Send.chunkGoogleChatText text maxLength = Some chunks ->
  (text <> [] ->
   Forall (fun c : jsstr => c <> []) chunks
   /\ (1 <= length chunks <= length text)%nat)
  /\ (text = [] -> chunks = [[]]).
Proof.
  intros Hpos Hrun. unfold Send.chunkGoogleChatText in Hrun.
  set (limit := nullish maxLength Send.defaultMaxLength) in *.
  unfold Send.chunkGoogleChatTextFuel in Hrun.
  destruct (Z.leb_spec (len text) limit) as [Hshort|Hlong].
  - injection Hrun as <-. split.
    + intros Hne. split; [repeat constructor; assumption|].
      destruct text; [congruence | simpl; lia].
    + now intros ->.
  - apply (chunkLoop_nonempty limit Hpos) in Hrun
      as (new & -> & Hne & Hcount & Hsome).
    simpl. split.
    + intros Htext. split; [assumption|]. split; [|assumption].
      specialize (Hsome Htext). destruct new; [congruence | simpl; lia].
    + intros ->. unfold len in Hlong. simpl in Hlong. lia.
Qed.

Lemma chunkGoogleChatText_no_empty_chunk_witness :
  Forall (fun c : jsstr => c <> [])
    [str "hello"; str "world"; str "foo bar"].
Proof.
  destruct (chunkGoogleChatText_no_empty_chunk (str "hello world foo bar")
              (Some 8) [str "hello"; str "world"; str "foo bar"]
              ltac:(simpl; lia) eq_refl) as [Hne _].
  apply Hne. discriminate.
Defined.

(* ===================================================================== *)
(** * Further properties: normalisation and the two transports *)
(* ===================================================================== *)

Section Transports.

Context {Timestamp : Type}.
Variable dateGetTime : option jsstr -> Timestamp.

(** X3: an event whose message comes from a sender of type BOT never
    yields a canonical message, whatever else the event holds: both
    normalisers return absent, the pull transport acks without
    forwarding, and the webhook builds no message and does not fail. *)
Theorem normalizeMessage_skips_bots (event : Event.t) (accountId : jsstr)
    (msg : Message.t) (sender : Sender.t) :
  Event.message event = Some msg ->
  Message.sender msg = Some sender ->
  Sender.type sender = Some (str "BOT") ->
  Monitor.normalizeMessage dateGetTime event accountId = Ok None
  /\ WebhookServer.normalizeMessage dateGetTime event accountId = Ok None
  /\ (forall account : ResolvedGoogleChatAccount.t,
        Monitor.messageHandler dateGetTime account (Ok event)
        = (Monitor.ack, false))
  /\ (forall (account : ResolvedGoogleChatAccount.t)
             (onMessage : option (Event.t -> Result unit)),
        let handled :=
          WebhookServer.webhookPost dateGetTime account onMessage event in
        WebhookServer.normalized handled = None
        /\ WebhookServer.status (WebhookServer.response handled) = 200).
Proof.
  intros Hmsg Hsender Hbot.
  assert (Hpull : forall accountId,
             Monitor.normalizeMessage dateGetTime event accountId = Ok None).
  { intros a. unfold Monitor.normalizeMessage.
    rewrite Hmsg, Hsender. simpl. unfold strictEq at 2. rewrite Hbot.
    rewrite bool_decide_eq_true_2 by reflexivity.
    now destruct (strictEq (Event.type event) "MESSAGE"). }
  split; [apply Hpull|]. split; [rewrite normalizeMessage_copies; apply Hpull|].
  split.
  - intros account. unfold Monitor.messageHandler. simpl.
    now rewrite Hpull.
  - intros account onMessage handled. subst handled.
    unfold WebhookServer.webhookPost.
    rewrite normalizeMessage_copies, Hpull.
    destruct (strictEq (Event.type event) "ADDED_TO_SPACE"); [now split|].
    destruct (strictEq (Event.type event) "MESSAGE"); now split.
Qed.

(** X4: what a canonical message says of the event it was built from.
    The event is of type MESSAGE and its sender is not a bot; the raw
    event and the account id are carried unchanged; the chat is a direct
    one exactly when the space type is "DM"; email, message name and
    thread are copied as they are, a thread being present exactly when
    the event has one; the chat name is the space's display name when
    that is a non-empty string and the chat id otherwise; the text is the
    argument text when non-empty, else the message text, else empty. *)
Theorem normalizeMessage_fields (event : Event.t) (accountId : jsstr)
    (m : Normalized.t Timestamp) :
  Monitor.normalizeMessage dateGetTime event accountId = Ok (Some m) ->
  Event.type event = Some (str "MESSAGE")
  /\ Normalized.raw m = event
  /\ Normalized.accountId m = accountId
  /\ Normalized.provider m = str "googlechat"
  /\ exists (msg : Message.t) (sender : Sender.t) (space : Space.t),
       Event.message event = Some msg
       /\ Message.sender msg = Some sender
       /\ Message.space msg = Some space
       /\ Sender.type sender <> Some (str "BOT")
       /\ (Normalized.Chat.type (Normalized.chat m) = Normalized.dm <->
           Space.type space = Some (str "DM"))
       /\ Normalized.Sender.email (Normalized.sender m) = Sender.email sender
       /\ Normalized.Sender.name (Normalized.sender m) = Sender.displayName sender
       /\ Normalized.messageId m = Message.name msg
       /\ Normalized.timestamp m = dateGetTime (Message.createTime msg)
       /\ Normalized.thread m
          = option_map (fun thread => Normalized.Thread.mk (Thread.name thread))
              (Message.thread msg)
       /\ Normalized.Chat.name (Normalized.chat m)
          = orElse (Space.displayName space) (Normalized.Chat.id (Normalized.chat m))
       /\ Normalized.Content.text (Normalized.content m)
          = orElse (Message.argumentText msg) (orElse (Message.text msg) []).
Proof.
  unfold Monitor.normalizeMessage, strictEq.
  case_bool_decide as Htype; simpl; [|discriminate].
  destruct (Event.message event) as [msg|]; [|discriminate].
  destruct (Message.sender msg) as [sender|] eqn:Hsender; simpl; [|discriminate].
  case_bool_decide as Hbot; [discriminate|].
  destruct (Message.space msg) as [space|] eqn:Hspace; simpl; [|discriminate].
  destruct (Space.name space) as [spaceName|]; simpl; [|discriminate].
  destruct (Sender.name sender) as [senderName|]; simpl; [|discriminate].
  intros [= <-]. simpl.
  split; [assumption|]. repeat (split; [reflexivity|]).
  exists msg, sender, space.
  repeat match goal with |- _ /\ _ => split end;
    try reflexivity; try assumption.
  - case_bool_decide as Hdm; split; congruence.
Qed.

(** X5: the chat id leads back to the space.  When the space of a
    normalised message is named [spaces/<id>], and [<id>] does not itself
    start with [spaces/], the chat id is [<id>] and the senders of
    send.ts turn it into the same resource name again. *)
Theorem chat_id_round_trip (event : Event.t) (accountId : jsstr)
    (m : Normalized.t Timestamp) (msg : Message.t) (space : Space.t)
    (id : jsstr) :
  Monitor.normalizeMessage dateGetTime event accountId = Ok (Some m) ->
  Event.message event = Some msg ->
  Message.space msg = Some space ->
  Space.name space = Some (str "spaces/" ++ id) ->
  startsWith (str "spaces/") id = false ->
  Normalized.Chat.id (Normalized.chat m) = id
  /\ Outbound.resolveSpaceName (Normalized.Chat.id (Normalized.chat m))
     = str "spaces/" ++ id.
Proof.
  intros Hnorm Hmsg Hspace Hname Hid.
  assert (E : Normalized.Chat.id (Normalized.chat m) = id).
  { unfold Monitor.normalizeMessage in Hnorm.
    rewrite Hmsg in Hnorm.
    destruct (strictEq (Event.type event) "MESSAGE"); simpl in Hnorm;
      [|discriminate].
    destruct (Message.sender msg) as [sender|]; simpl in Hnorm; [|discriminate].
    destruct (strictEq (Sender.type sender) "BOT"); [discriminate|].
    rewrite Hspace in Hnorm. simpl in Hnorm. rewrite Hname in Hnorm.
    simpl JS.bind in Hnorm. cbv beta in Hnorm.
    destruct (Sender.name sender) as [senderName|]; simpl in Hnorm;
      [|discriminate].
    injection Hnorm as <-. cbn [Normalized.chat Normalized.Chat.id].
    apply (replace_prefix (str "spaces/") id []). }
  split; [exact E|]. rewrite E. unfold Outbound.resolveSpaceName.
  now rewrite Hid.
Qed.

End Transports.

Lemma normalizeMessage_skips_bots_witness :
  Monitor.normalizeMessage (fun _ : option jsstr => 0)
    (sampleMessageEvent "BOT") (str "default") = Ok None
  /\ Monitor.messageHandler (fun _ : option jsstr => 0)
       (sampleAccount (sampleConfig "open" [])) (Ok (sampleMessageEvent "BOT"))
     = (Monitor.ack, false).
Proof.
  destruct (normalizeMessage_skips_bots (fun _ : option jsstr => 0)
              (sampleMessageEvent "BOT") (str "default") _ _
              eq_refl eq_refl eq_refl) as (Hpull & _ & Hhandler & _).
  split; [exact Hpull | apply Hhandler].
Defined.

Lemma normalizeMessage_fields_witness :
  exists m : Normalized.t Z,
    Monitor.normalizeMessage (fun _ : option jsstr => 0)
      (sampleMessageEvent "HUMAN") (str "default") = Ok (Some m)
    /\ Normalized.raw m = sampleMessageEvent "HUMAN"
    /\ Normalized.accountId m = str "default".
Proof.
  eexists. split; [reflexivity|].
  destruct (normalizeMessage_fields (fun _ : option jsstr => 0)
              (sampleMessageEvent "HUMAN") (str "default") _ eq_refl)
    as (_ & Hraw & Hid & _).
  split; [exact Hraw | exact Hid].
Defined.

Lemma chat_id_round_trip_witness :
  exists m : Normalized.t Z,
    Monitor.normalizeMessage (fun _ : option jsstr => 0)
      (sampleMessageEvent "HUMAN") (str "default") = Ok (Some m)
    /\ Outbound.resolveSpaceName (Normalized.Chat.id (Normalized.chat m))
       = str "spaces/AAA".
Proof.
  eexists. split; [reflexivity|].
  destruct (chat_id_round_trip (fun _ : option jsstr => 0)
              (sampleMessageEvent "HUMAN") (str "default") _ _ _ (str "AAA")
              eq_refl eq_refl eq_refl eq_refl eq_refl) as [_ Hname].
  exact Hname.
Defined.

Section Handlers.

Context {Timestamp : Type}.
Variable dateGetTime : option jsstr -> Timestamp.

(** The outcome of normalisation does not depend on the account id,
    apart from the id recorded in the message. *)
Lemma normalizeMessage_accountId (event : Event.t) (a1 a2 : jsstr) :
  match Monitor.normalizeMessage dateGetTime event a1,
        Monitor.normalizeMessage dateGetTime event a2 with
  | Ok None, Ok None => True
  | Ok (Some m1), Ok (Some m2) =>
      Normalized.content m1 = Normalized.content m2
      /\ Normalized.chat m1 = Normalized.chat m2
      /\ Normalized.sender m1 = Normalized.sender m2
  | Throw e1, Throw e2 => e1 = e2
  | _, _ => False
  end.
Proof.
  unfold Monitor.normalizeMessage.
  destruct (strictEq (Event.type event) "MESSAGE"); simpl; [|exact I].
  destruct (Event.message event) as [msg|]; [|exact I].
  destruct (Message.sender msg) as [sender|]; simpl; [|reflexivity].
  destruct (strictEq (Sender.type sender) "BOT"); [exact I|].
  destruct (Message.space msg) as [space|]; simpl; [|reflexivity].
  destruct (Space.name space) as [spaceName|]; simpl; [|reflexivity].
  destruct (Sender.name sender) as [senderName|]; simpl; [|reflexivity].
  repeat split.
Qed.

(** X6: the webhook consults no access policy.  Its response to an
    event is the same for any two accounts, whatever their DM and space
    policies and allowlists are. *)
Theorem webhookPost_ignores_account (account1 account2 : ResolvedGoogleChatAccount.t)
    (onMessage : option (Event.t -> Result unit)) (event : Event.t) :
  WebhookServer.response
    (WebhookServer.webhookPost dateGetTime account1 onMessage event)
  = WebhookServer.response
      (WebhookServer.webhookPost dateGetTime account2 onMessage event).
Proof.
  unfold WebhookServer.webhookPost.
  destruct (strictEq (Event.type event) "ADDED_TO_SPACE"); [reflexivity|].
  destruct (strictEq (Event.type event) "MESSAGE"); [|reflexivity].
  rewrite (normalizeMessage_copies dateGetTime event
             (ResolvedGoogleChatAccount.accountId account1)),
          (normalizeMessage_copies dateGetTime event
             (ResolvedGoogleChatAccount.accountId account2)).
  pose proof (normalizeMessage_accountId event
                (ResolvedGoogleChatAccount.accountId account1)
                (ResolvedGoogleChatAccount.accountId account2)) as H.
  destruct (Monitor.normalizeMessage dateGetTime event
              (ResolvedGoogleChatAccount.accountId account1)) as [[m1|]|e1];
    destruct (Monitor.normalizeMessage dateGetTime event
                (ResolvedGoogleChatAccount.accountId account2)) as [[m2|]|e2];
    try contradiction; try reflexivity.
  destruct H as (Hcontent & _ & _).
  destruct (match onMessage with
            | Some callback => callback event
            | None => Ok tt
            end); simpl; [|reflexivity].
  now rewrite Hcontent.
Qed.


(** X8: what the pull transport tells the broker.  A delivery is
    nacked exactly when its payload does not parse or the normaliser
    throws on the event; every other delivery is acked, whatever the
    policy decides.  A message is forwarded exactly when it was
    normalised and the policy allows it, and then the delivery is
    acked. *)
Theorem messageHandler_settlement (account : ResolvedGoogleChatAccount.t)
    (eventData : Result Event.t) :
  let outcome := Monitor.messageHandler dateGetTime account eventData in
  (fst outcome = Monitor.nack <->
   (exists e : Exn, eventData = Throw e)
   \/ (exists event : Event.t, eventData = Ok event /\ raises event = true))
  /\ (snd outcome = true <->
      exists (event : Event.t) (m : Normalized.t Timestamp),
        eventData = Ok event
        /\ Monitor.normalizeMessage dateGetTime event
             (ResolvedGoogleChatAccount.accountId account) = Ok (Some m)
        /\ Monitor.checkMessagePolicy m account = true)
  /\ (snd outcome = true -> fst outcome = Monitor.ack).
Proof.
  intros outcome. subst outcome. unfold Monitor.messageHandler.
  destruct eventData as [event|e]; simpl.
  2:{ repeat split; try discriminate.
      - intros _. left. now exists e.
      - intros (event & m & Habs & _). discriminate. }
  pose proof (monitor_normalizeMessage_outcome dateGetTime event
                (ResolvedGoogleChatAccount.accountId account)) as [Hthrow Hok].
  destruct (raises event) eqn:Hr.
  - rewrite (Hthrow eq_refl). simpl. repeat split; try discriminate.
    + intros _. right. now exists event.
    + intros (ev & m & [= <-] & Hm & _).
      rewrite (Hthrow eq_refl) in Hm. discriminate.
  - destruct (Hok eq_refl) as [[m|] Hm]; rewrite Hm; simpl.
    + repeat split; try discriminate.
      * intros [[e He]|(ev & [= <-] & Hraise)]; congruence.
      * intros Hallow. now exists event, m.
      * intros (ev & m' & [= <-] & Hm' & Hallow).
        rewrite Hm in Hm'. now injection Hm' as <-.
    + repeat split; try discriminate.
      * intros [[e He]|(ev & [= <-] & Hraise)]; congruence.
      * intros (ev & m' & [= <-] & Hm' & _). rewrite Hm in Hm'. discriminate.
Qed.

(** X9: closed by default.  For an account whose configuration sets
    neither [dmPolicy] nor [spacePolicy], the pull transport forwards
    nothing: every delivery, direct or group, is turned away. *)
Theorem messageHandler_default_denies (account : ResolvedGoogleChatAccount.t)
    (eventData : Result Event.t) :
  GoogleChatAccountConfig.dmPolicy (ResolvedGoogleChatAccount.config account) = None ->
  GoogleChatAccountConfig.spacePolicy (ResolvedGoogleChatAccount.config account) = None ->
  snd (Monitor.messageHandler dateGetTime account eventData) = false.
Proof.
  intros Hdm Hspace. unfold Monitor.messageHandler.
  destruct eventData as [event|e]; simpl; [|reflexivity].
  destruct (Monitor.normalizeMessage dateGetTime event
              (ResolvedGoogleChatAccount.accountId account)) as [[m|]|e];
    simpl; try reflexivity.
  rewrite checkMessagePolicy_cases. cbv zeta.
  unfold Monitor.policy. rewrite Hdm, Hspace. simpl.
  destruct (Normalized.Chat.type (Normalized.chat m)); reflexivity.
Qed.

End Handlers.

Lemma messageHandler_default_denies_witness :
  snd (Monitor.messageHandler (fun _ : option jsstr => 0)
         (sampleAccount GoogleChatAccountConfig.empty)
         (Ok (sampleMessageEvent "HUMAN"))) = false.
Proof.
  apply (messageHandler_default_denies (fun _ : option jsstr => 0)
           (sampleAccount GoogleChatAccountConfig.empty)
           (Ok (sampleMessageEvent "HUMAN")) eq_refl eq_refl).
Defined.

(* ===================================================================== *)
(** * Further properties: the account registry (accounts.ts) *)
(* ===================================================================== *)

Lemma filter_map_none {A B : Type} (f : B -> bool) (g : A -> B) (l : list A) :
  (forall x, f (g x) = false) -> List.filter f (map g l) = [].
Proof.
  intros H. induction l as [|x l IH]; simpl; [reflexivity|].
  now rewrite H.
Qed.

Lemma notFalse_pick (base override : option bool) :
  notFalse base
  && notFalse (match override with Some v => Some v | None => base end)
  = notFalse base && notFalse override.
Proof. destruct base as [[]|], override as [[]|]; reflexivity. Qed.

(** X10: the ids that are listed as configured are exactly the
    non-empty keys of the [accounts] map, each listed once: an id is
    listed iff it is a non-empty string for which an override is found. *)
Theorem listConfiguredAccountIds_lookup (cfg : ClawdbotConfig.t) :
  NoDup (listConfiguredAccountIds cfg)
  /\ forall id : jsstr,
       id ∈ listConfiguredAccountIds cfg <->
       id <> [] /\ is_Some (resolveAccountConfig cfg id).
Proof.
  unfold listConfiguredAccountIds, resolveAccountConfig.
  destruct (ClawdbotConfig.googlechat cfg) as [googlechat|].
  2:{ split; [constructor|]. intros id. split.
      - intros H. inversion H.
      - intros [_ [x Hx]]. discriminate. }
  destruct (GoogleChatConfig.accounts googlechat) as [accounts|].
  2:{ split; [constructor|]. intros id. split.
      - intros H. inversion H.
      - intros [_ [x Hx]]. discriminate. }
  split.
  - apply NoDup_ListNoDup, List.NoDup_filter, NoDup_ListNoDup.
    change (map fst (map_to_list accounts)) with ((map_to_list accounts).*1).
    apply NoDup_fst_map_to_list.
  - intros id. rewrite list_elem_of_In, filter_In, truthy_true.
    rewrite <- list_elem_of_In.
    change (map fst (map_to_list accounts)) with ((map_to_list accounts).*1).
    rewrite list_elem_of_fmap. split.
    + intros [([k v] & -> & Hin) Hne]. split; [assumption|].
      exists v. now apply elem_of_map_to_list.
    + intros [Hne [v Hv]]. split; [|assumption].
      exists (id, v). split; [reflexivity|]. now apply elem_of_map_to_list.
Qed.

Section RegistryMore.

Variable DEFAULT_ACCOUNT_ID : jsstr.
Variable normalizeAccountId : option jsstr -> jsstr.
Variable localeSort : list jsstr -> list jsstr.

(** X11: switching the provider off switches every account off.  When
    the provider-level [enabled] flag is false, every resolved account is
    disabled, whatever its own override says, and no account is listed
    as enabled. *)
Theorem provider_disabled_disables_all (cfg : ClawdbotConfig.t)
    (googlechat : GoogleChatConfig.t) :
  ClawdbotConfig.googlechat cfg = Some googlechat ->
  GoogleChatAccountConfig.enabled (GoogleChatConfig.base googlechat) = Some false ->
  (forall accountId : option jsstr,
      ResolvedGoogleChatAccount.enabled
        (resolveGoogleChatAccount normalizeAccountId cfg accountId) = false)
  /\ listEnabledGoogleChatAccounts DEFAULT_ACCOUNT_ID normalizeAccountId
       localeSort cfg = [].
Proof.
  intros Hcfg Hoff.
  assert (Hall : forall accountId : option jsstr,
             ResolvedGoogleChatAccount.enabled
               (resolveGoogleChatAccount normalizeAccountId cfg accountId) = false).
  { intros accountId. unfold resolveGoogleChatAccount. cbv zeta.
    rewrite Hcfg, Hoff. reflexivity. }
  split; [exact Hall|].
  unfold listEnabledGoogleChatAccounts.
  apply filter_map_none. intros id. apply Hall.
Qed.

(** X12: an account with an override.  Resolving a configured id (that
    normalisation leaves as it is) gives that id; each of project,
    subscription and credentials comes from the override when the
    override sets it and from the provider level otherwise; and the
    account is enabled exactly when neither the provider-level flag nor
    the override's flag is false. *)
Theorem resolveGoogleChatAccount_override (cfg : ClawdbotConfig.t)
    (googlechat : GoogleChatConfig.t)
    (accounts : gmap (list N) GoogleChatAccountConfig.t)
    (id : jsstr) (override : GoogleChatAccountConfig.t) :
  ClawdbotConfig.googlechat cfg = Some googlechat ->
  GoogleChatConfig.accounts googlechat = Some accounts ->
  accounts !! id = Some override ->
  normalizeAccountId (Some id) = id ->
  let account := resolveGoogleChatAccount normalizeAccountId cfg (Some id) in
  let base := GoogleChatConfig.base googlechat in
  ResolvedGoogleChatAccount.accountId account = id
  /\ ResolvedGoogleChatAccount.enabled account
     = notFalse (GoogleChatAccountConfig.enabled base)
       && notFalse (GoogleChatAccountConfig.enabled override)
  /\ ResolvedGoogleChatAccount.projectId account
     = nullish (GoogleChatAccountConfig.projectId override)
         (nullish (GoogleChatAccountConfig.projectId base) [])
  /\ ResolvedGoogleChatAccount.subscriptionName account
     = nullish (GoogleChatAccountConfig.subscriptionName override)
         (nullish (GoogleChatAccountConfig.subscriptionName base) [])
  /\ ResolvedGoogleChatAccount.credentialsPath account
     = match GoogleChatAccountConfig.credentialsPath override with
       | Some path => Some path
       | None => GoogleChatAccountConfig.credentialsPath base
       end
  /\ ResolvedGoogleChatAccount.config account
     = GoogleChatAccountConfig.spread base override.
Proof.
  intros Hcfg Haccounts Hlookup Hnorm account base. subst account.
  unfold resolveGoogleChatAccount. cbv zeta. rewrite Hnorm.
  assert (Hmerge : mergeGoogleChatAccountConfig cfg id
                   = GoogleChatAccountConfig.spread base override).
  { unfold mergeGoogleChatAccountConfig, resolveAccountConfig.
    now rewrite Hcfg, Haccounts, Hlookup. }
  rewrite Hmerge, Hcfg. fold base.
  cbn [ResolvedGoogleChatAccount.accountId ResolvedGoogleChatAccount.enabled
       ResolvedGoogleChatAccount.projectId
       ResolvedGoogleChatAccount.subscriptionName
       ResolvedGoogleChatAccount.credentialsPath
       ResolvedGoogleChatAccount.config].
  split; [reflexivity|]. split.
  { unfold GoogleChatAccountConfig.spread. simpl. apply notFalse_pick. }
  unfold GoogleChatAccountConfig.spread. simpl.
  repeat split.
  - now destruct (GoogleChatAccountConfig.projectId override).
  - now destruct (GoogleChatAccountConfig.subscriptionName override).
Qed.

(** X13: the adapter always has an addressable account.  For a
    collation that only reorders the ids, the list of account ids is
    never empty and has no duplicates, its members are the configured
    ids, or the default id alone when none is configured, and the
    default account id is a member of it. *)
Theorem listGoogleChatAccountIds_nonempty (cfg : ClawdbotConfig.t) :
  (forall ids : list jsstr, localeSort ids ≡ₚ ids) ->
  let ids := listGoogleChatAccountIds DEFAULT_ACCOUNT_ID localeSort cfg in
  ids <> []
  /\ NoDup ids
  /\ (forall id : jsstr,
        id ∈ ids <->
        (listConfiguredAccountIds cfg = [] /\ id = DEFAULT_ACCOUNT_ID)
        \/ id ∈ listConfiguredAccountIds cfg)
  /\ resolveDefaultGoogleChatAccountId DEFAULT_ACCOUNT_ID localeSort cfg ∈ ids.
Proof.
  intros Hsort ids.
  assert (Hids : ids = listGoogleChatAccountIds DEFAULT_ACCOUNT_ID localeSort cfg)
    by reflexivity.
  unfold listGoogleChatAccountIds in Hids. cbv zeta in Hids.
  destruct (listConfiguredAccountIds_lookup cfg) as [Hnodup _].
  assert (Hne : ids <> []).
  { rewrite Hids. case_bool_decide as Hlen; [discriminate|].
    intros E. apply Hlen. rewrite <- (Hsort (listConfiguredAccountIds cfg)), E.
    reflexivity. }
  split; [exact Hne|]. split; [|split].
  - rewrite Hids. case_bool_decide as Hlen.
    + apply NoDup_singleton.
    + rewrite Hsort. exact Hnodup.
  - intros id. rewrite Hids. case_bool_decide as Hlen.
    + apply length_zero_iff_nil in Hlen. rewrite Hlen.
      rewrite list_elem_of_singleton. split.
      * intros ->. now left.
      * intros [[_ ->]|H]; [reflexivity | inversion H].
    + rewrite Hsort. split; [now right|].
      intros [[E _]|H]; [|exact H]. now rewrite E in Hlen.
  - unfold resolveDefaultGoogleChatAccountId. fold ids. unfold includes.
    clear Hids.
    destruct (decide (DEFAULT_ACCOUNT_ID ∈ ids)) as [Hin|Hout].
    + now rewrite bool_decide_eq_true_2.
    + rewrite bool_decide_eq_false_2 by assumption.
      destruct ids as [|first rest]; [congruence|]. simpl.
      apply list_elem_of_here.
Qed.

End RegistryMore.

Lemma provider_disabled_disables_all_witness :
  ResolvedGoogleChatAccount.enabled
    (resolveGoogleChatAccount sampleNormalizeAccountId disabledProviderConfig
       (Some (str "work"))) = false
  /\ listEnabledGoogleChatAccounts (str "default") sampleNormalizeAccountId
       (fun ids => ids) disabledProviderConfig = [].
Proof.
  destruct (provider_disabled_disables_all (str "default")
              sampleNormalizeAccountId (fun ids => ids)
              disabledProviderConfig _ eq_refl eq_refl) as [Hall Hnone].
  split; [apply Hall | exact Hnone].
Defined.

Lemma resolveGoogleChatAccount_override_witness :
  let account :=
    resolveGoogleChatAccount sampleNormalizeAccountId workConfig
      (Some (str "work")) in
  ResolvedGoogleChatAccount.projectId account = str "work-project"
  /\ ResolvedGoogleChatAccount.subscriptionName account
     = str "projects/my-project/subscriptions/chat"
  /\ ResolvedGoogleChatAccount.enabled account = true.
Proof.
  intros account. subst account.
  assert (Hlookup : workAccounts !! str "work" = Some workOverride)
    by apply lookup_singleton_eq.
  destruct (resolveGoogleChatAccount_override sampleNormalizeAccountId
              workConfig workProvider workAccounts (str "work") workOverride
              eq_refl eq_refl Hlookup eq_refl)
    as (_ & Henabled & Hproject & Hsubscription & _).
  split; [exact Hproject|]. split; [exact Hsubscription | exact Henabled].
Defined.

Lemma listGoogleChatAccountIds_nonempty_witness :
  resolveDefaultGoogleChatAccountId (str "default") (fun ids => ids)
    providerLevelConfig
  ∈ listGoogleChatAccountIds (str "default") (fun ids => ids) providerLevelConfig.
Proof.
  destruct (listGoogleChatAccountIds_nonempty (str "default") (fun ids => ids)
              providerLevelConfig (fun ids => reflexivity ids))
    as (_ & _ & _ & Hin).
  exact Hin.
Defined.

(* ===================================================================== *)
(** * Further properties: the REST calls (send.ts) *)
(* ===================================================================== *)

(** X14: the target of a send.  The resource name that the senders use
    always starts with [spaces/]; a name that already does is used as
    it is, so resolving twice changes nothing. *)
Theorem resolveSpaceName_prefixed (to : jsstr) :
  startsWith (str "spaces/") (Outbound.resolveSpaceName to) = true
  /\ Outbound.resolveSpaceName (Outbound.resolveSpaceName to)
     = Outbound.resolveSpaceName to
  /\ (startsWith (str "spaces/") to = true -> Outbound.resolveSpaceName to = to)
  /\ (startsWith (str "spaces/") to = false ->
      Outbound.resolveSpaceName to = str "spaces/" ++ to).
Proof.
  assert (H : startsWith (str "spaces/") (Outbound.resolveSpaceName to) = true).
  { unfold Outbound.resolveSpaceName.
    destruct (startsWith (str "spaces/") to) eqn:E; [exact E|].
    apply startsWith_app. }
  split; [exact H|]. split.
  - unfold Outbound.resolveSpaceName at 1. now rewrite H.
  - unfold Outbound.resolveSpaceName. split; intros ->; reflexivity.
Qed.

Section Senders.

Context {Client Failure : Type}.
Variable chat : option jsstr -> Client.
Variable create : Client -> Outbound.CreateParams -> Failure + option jsstr.

(** X15: the client cache.  After a call the cache holds the client
    that was returned under the account's key, so a second call returns
    the same client and leaves the cache as it is; entries already in
    the cache are neither dropped nor replaced; and a client is built,
    from the account's key file, only when the key was not cached. *)
Theorem getChatClient_cached (account : ResolvedGoogleChatAccount.t)
    (chatClients : gmap (list N) Client) :
  let client := fst (Outbound.getChatClient chat account chatClients) in
  let after := snd (Outbound.getChatClient chat account chatClients) in
  after !! Outbound.cacheKey account = Some client
  /\ Outbound.getChatClient chat account after = (client, after)
  /\ chatClients ⊆ after
  /\ (forall key : jsstr,
        key <> Outbound.cacheKey account -> after !! key = chatClients !! key)
  /\ (forall cached : Client,
        chatClients !! Outbound.cacheKey account = Some cached ->
        client = cached /\ after = chatClients)
  /\ (chatClients !! Outbound.cacheKey account = None ->
      client = chat (ResolvedGoogleChatAccount.credentialsPath account)).
Proof.
  intros client after. subst client after.
  unfold Outbound.getChatClient.
  destruct (chatClients !! Outbound.cacheKey account) as [cached|] eqn:Hc; simpl.
  - rewrite Hc. repeat match goal with |- _ /\ _ => split end;
      first [ reflexivity
            | discriminate
            | intros cached' [= <-]; now split ].
  - rewrite lookup_insert_eq. repeat match goal with |- _ /\ _ => split end;
      first [ reflexivity
            | discriminate
            | now apply insert_subseteq
            | intros key Hkey; now apply lookup_insert_ne ].
Qed.

(** X16: the cache key does not tell accounts apart.  Whenever two
    accounts have the same key and the first has been served from a
    cache without it, the second is handed the first one's client, built
    from the first one's key file.  Keys do coincide: for one account id,
    no credentials path and the path ["default"] give the same key, and
    so do the id [a:x] without credentials and the id [a] with the
    path [x:default]. *)
Theorem getChatClient_key_collision (first second : ResolvedGoogleChatAccount.t)
    (chatClients : gmap (list N) Client) :
  Outbound.cacheKey first = Outbound.cacheKey second ->
  chatClients !! Outbound.cacheKey first = None ->
  fst (Outbound.getChatClient chat second
         (snd (Outbound.getChatClient chat first chatClients)))
  = chat (ResolvedGoogleChatAccount.credentialsPath first)
  /\ (forall one other : ResolvedGoogleChatAccount.t,
        ResolvedGoogleChatAccount.accountId one
        = ResolvedGoogleChatAccount.accountId other ->
        ResolvedGoogleChatAccount.credentialsPath one = None ->
        ResolvedGoogleChatAccount.credentialsPath other = Some (str "default") ->
        Outbound.cacheKey one = Outbound.cacheKey other)
  /\ (forall (one other : ResolvedGoogleChatAccount.t) (a x : jsstr),
        ResolvedGoogleChatAccount.accountId one = a ++ str ":" ++ x ->
        ResolvedGoogleChatAccount.credentialsPath one = None ->
        ResolvedGoogleChatAccount.accountId other = a ->
        ResolvedGoogleChatAccount.credentialsPath other
        = Some (x ++ str ":default") ->
        Outbound.cacheKey one = Outbound.cacheKey other).
Proof.
  intros Hkey Hfresh. split; [|split].
  - unfold Outbound.getChatClient at 2. rewrite Hfresh. simpl.
    unfold Outbound.getChatClient. now rewrite <- Hkey, lookup_insert_eq.
  - intros one other Hid Hone Hother. unfold Outbound.cacheKey.
    now rewrite Hid, Hone, Hother.
  - intros one other a x Hid1 Hone Hid2 Hother. unfold Outbound.cacheKey.
    rewrite Hid1, Hone, Hid2, Hother. simpl. now rewrite <- !app_assoc.
Qed.

(** The cache holds the returned client under the account's key. *)
Lemma getChatClient_lookup (account : ResolvedGoogleChatAccount.t)
    (chatClients : gmap (list N) Client) :
  snd (Outbound.getChatClient chat account chatClients)
    !! Outbound.cacheKey account
  = Some (fst (Outbound.getChatClient chat account chatClients)).
Proof.
  unfold Outbound.getChatClient.
  destruct (chatClients !! Outbound.cacheKey account) eqn:Hc; simpl;
    [exact Hc | apply lookup_insert_eq].
Qed.

(** X17: one send, one call.  [sendGoogleChatText] makes a single create
    call on the cached client, whatever the length of the text: the body
    has no card, its text is the whole text, preceded by the configured
    prefix and a space when that prefix is a non-empty string, and it
    names a thread only for a non-empty thread key.  The [replyToId]
    option has no effect; an empty thread key is the same as none; a bare
    space id and its resource name are the same target; a successful send
    reports a space name that starts with [spaces/]; and the client stays
    cached even when the call fails. *)
Theorem sendGoogleChatText_one_call (to text : jsstr)
    (account : ResolvedGoogleChatAccount.t)
    (threadKey replyToId : option jsstr)
    (chatClients : gmap (list N) Client) :
  let send := Outbound.sendGoogleChatText chat create in
  let sent := send to text account threadKey replyToId chatClients in
  let client := fst (Outbound.getChatClient chat account chatClients) in
  let prefix :=
    GoogleChatAccountConfig.messagePrefix (ResolvedGoogleChatAccount.config account) in
  (exists body : Outbound.RequestBody.t,
      fst sent
      = match create client
                (Outbound.mkCreate (Outbound.resolveSpaceName to) body) with
        | inl failure => inl failure
        | inr name =>
            inr (Outbound.mkResult (nullish name [])
                   (Outbound.resolveSpaceName to))
        end
      /\ Outbound.RequestBody.cardsV2 body = None
      /\ Outbound.RequestBody.thread body = Outbound.whenTruthy threadKey
      /\ Outbound.RequestBody.text body
         = Some (match Outbound.whenTruthy prefix with
                 | Some p => p ++ [SP] ++ text
                 | None => text
                 end))
  /\ (forall other : option jsstr,
        send to text account threadKey other chatClients = sent)
  /\ (threadKey = Some [] ->
      send to text account None replyToId chatClients = sent)
  /\ send (Outbound.resolveSpaceName to) text account threadKey replyToId
       chatClients = sent
  /\ (forall result : Outbound.SendGoogleChatResult,
        fst sent = inr result ->
        startsWith (str "spaces/") (Outbound.spaceName result) = true)
  /\ snd sent !! Outbound.cacheKey account = Some client.
Proof.
  intros send sent client prefix. subst send sent client prefix.
  pose proof (getChatClient_lookup account chatClients) as Hlookup.
  unfold Outbound.sendGoogleChatText, Outbound.createMessage.
  destruct (Outbound.getChatClient chat account chatClients) as [client after].
  cbn [fst snd] in *.
  assert (Hprefixed :
            startsWith (str "spaces/") (Outbound.resolveSpaceName to) = true).
  { unfold Outbound.resolveSpaceName.
    destruct (startsWith (str "spaces/") to) eqn:E; [exact E|].
    apply startsWith_app. }
  split; [eexists; split; [reflexivity|]; repeat split|].
  split; [reflexivity|]. split; [now intros ->|]. split.
  { assert (Hidem : Outbound.resolveSpaceName (Outbound.resolveSpaceName to)
                    = Outbound.resolveSpaceName to).
    { unfold Outbound.resolveSpaceName at 1. now rewrite Hprefixed. }
    now rewrite Hidem. }
  split; [|exact Hlookup].
  intros result Hresult.
  destruct (create client _) as [failure|name]; [discriminate|].
  injection Hresult as <-. exact Hprefixed.
Qed.

(** X18: media goes out as a card.  [sendGoogleChatMedia] makes a
    single create call whose body has no text and exactly one card; the
    card has one section, whose last widget is the image of the media
    URL, and a paragraph with the caption stands before the image
    exactly when the caption is a non-empty string.  The alternative text
    of the image is the caption, "Image" only when no caption is given. *)
Theorem sendGoogleChatMedia_card (now to mediaUrl : jsstr)
    (account : ResolvedGoogleChatAccount.t)
    (caption threadKey : option jsstr)
    (chatClients : gmap (list N) Client) :
  let sent :=
    Outbound.sendGoogleChatMedia chat create now to mediaUrl account caption
      threadKey chatClients in
  let client := fst (Outbound.getChatClient chat account chatClients) in
  exists (body : Outbound.RequestBody.t) (card : Outbound.CardWithId)
         (widgets : list Outbound.Widget),
    fst sent
    = match create client
              (Outbound.mkCreate (Outbound.resolveSpaceName to) body) with
      | inl failure => inl failure
      | inr name =>
          inr (Outbound.mkResult (nullish name []) (Outbound.resolveSpaceName to))
      end
    /\ Outbound.RequestBody.text body = None
    /\ Outbound.RequestBody.thread body = Outbound.whenTruthy threadKey
    /\ Outbound.RequestBody.cardsV2 body = Some [card]
    /\ Outbound.cardId card = str "media-" ++ now
    /\ Outbound.sections card = [widgets]
    /\ last widgets
       = Some (Outbound.image mediaUrl (nullish caption (str "Image")))
    /\ (forall text : jsstr,
          Outbound.textParagraph text ∈ widgets <->
          caption = Some text /\ text <> [])
    /\ (length widgets <= 2)%nat.
Proof.
  intros sent client. subst sent client.
  unfold Outbound.sendGoogleChatMedia, Outbound.sendGoogleChatCard,
    Outbound.createMessage.
  destruct (Outbound.getChatClient chat account chatClients) as [client after].
  eexists. exists (Outbound.mediaCard now mediaUrl caption). eexists.
  split; [reflexivity|]. simpl.
  repeat match goal with |- _ /\ _ => split end; try reflexivity.
  - unfold Outbound.whenTruthy.
    destruct caption as [[|c s]|]; reflexivity.
  - intros text. unfold Outbound.whenTruthy.
    destruct caption as [[|c s]|]; simpl.
    + rewrite list_elem_of_singleton. split; [discriminate|].
      intros [[= <-] H]. congruence.
    + rewrite elem_of_cons, list_elem_of_singleton. split.
      * intros [[= ->]|H]; [|discriminate]. split; [reflexivity | discriminate].
      * intros [[= <-] _]. now left.
    + rewrite list_elem_of_singleton. split; [discriminate|].
      intros [H _]. discriminate.
  - unfold Outbound.whenTruthy.
    destruct caption as [[|c s]|]; simpl; lia.
Qed.

End Senders.

(** The account "team" first without credentials, then with the key
    file "default": the second call gets the client built without one. *)
Lemma getChatClient_key_collision_witness :
  let first :=
    ResolvedGoogleChatAccount.mk (str "team") true None [] [] None
      GoogleChatAccountConfig.empty in
  let second :=
    ResolvedGoogleChatAccount.mk (str "team") true None [] []
      (Some (str "default")) GoogleChatAccountConfig.empty in
  fst (Outbound.getChatClient (fun keyFile : option jsstr => keyFile) second
         (snd (Outbound.getChatClient (fun keyFile : option jsstr => keyFile)
                 first ∅)))
  = None.
Proof.
  intros first second.
  apply (getChatClient_key_collision (fun keyFile : option jsstr => keyFile)
           first second ∅ eq_refl (lookup_empty _)).
Defined.

(* ===================================================================== *)
(** * Further properties: the provider plugin *)
(* ===================================================================== *)

Lemma isWhiteSpace_visible (c : N) :
  (33 <= c <= 159)%N -> isWhiteSpace c = false.
Proof.
  intros Hc. unfold isWhiteSpace.
  rewrite (proj2 (N.leb_gt c 13)) by lia.
  rewrite (proj2 (N.leb_gt 8192 c)) by lia.
  repeat match goal with
         | |- context [N.eqb c ?k] => rewrite (proj2 (N.eqb_neq c k)) by lia
         end.
  now rewrite andb_false_r.
Qed.

Lemma isWhiteSpace_lowerUnit (c : N) : isWhiteSpace (lowerUnit c) = isWhiteSpace c.
Proof.
  unfold lowerUnit.
  destruct ((65 <=? c) && (c <=? 90))%N eqn:E; [|reflexivity].
  apply andb_true_iff in E as [E1%N.leb_le E2%N.leb_le].
  rewrite !isWhiteSpace_visible by lia. reflexivity.
Qed.

Lemma lowerUnit_idem (c : N) : lowerUnit (lowerUnit c) = lowerUnit c.
Proof.
  unfold lowerUnit.
  destruct ((65 <=? c) && (c <=? 90))%N eqn:E; [|now rewrite E].
  apply andb_true_iff in E as [E1%N.leb_le E2%N.leb_le].
  rewrite (proj2 (N.leb_gt (c + 32) 90)) by lia.
  now rewrite andb_false_r.
Qed.

Lemma lowerUnit_not_capital (c : N) : ~ (65 <= lowerUnit c <= 90)%N.
Proof.
  unfold lowerUnit.
  destruct ((65 <=? c) && (c <=? 90))%N eqn:E.
  - apply andb_true_iff in E as [E1%N.leb_le E2%N.leb_le]. lia.
  - apply andb_false_iff in E as [E%N.leb_gt|E%N.leb_gt]; lia.
Qed.

Lemma toLowerCase_idem (s : jsstr) : toLowerCase (toLowerCase s) = toLowerCase s.
Proof.
  unfold toLowerCase. rewrite map_map.
  apply map_ext. intros c. apply lowerUnit_idem.
Qed.

Lemma toLowerCase_no_capital (s : jsstr) : ~ hasCapital (toLowerCase s).
Proof.
  unfold hasCapital, toLowerCase. intros H.
  apply Exists_exists in H as (c & Hin & Hc).
  apply list_elem_of_In, in_map_iff in Hin as (x & <- & _).
  now apply (lowerUnit_not_capital x).
Qed.

Lemma trimStart_toLowerCase (s : jsstr) :
  trimStart (toLowerCase s) = toLowerCase (trimStart s).
Proof.
  induction s as [|c s IH]; simpl; [reflexivity|].
  rewrite isWhiteSpace_lowerUnit.
  destruct (isWhiteSpace c); [exact IH | reflexivity].
Qed.

Lemma trimEnd_toLowerCase (s : jsstr) :
  trimEnd (toLowerCase s) = toLowerCase (trimEnd s).
Proof.
  unfold trimEnd.
  replace (rev (toLowerCase s)) with (toLowerCase (rev s))
    by apply map_rev.
  rewrite trimStart_toLowerCase. symmetry. apply map_rev.
Qed.

Lemma trim_toLowerCase (s : jsstr) : trim (toLowerCase s) = toLowerCase (trim s).
Proof.
  unfold trim. now rewrite trimStart_toLowerCase, trimEnd_toLowerCase.
Qed.

Lemma truthy_toLowerCase (s : jsstr) : truthy (toLowerCase s) = truthy s.
Proof. now destruct s. Qed.

(** An entry in the form [formatAllowFrom] gives it. *)
Lemma format_entry_fixed (x : jsstr) :
  toLowerCase (trim (toLowerCase (trim x))) = toLowerCase (trim x).
Proof. now rewrite trim_toLowerCase, toLowerCase_idem, trim_idem. Qed.

Lemma formatAllowFrom_normal_form_aux (allowFrom : list jsstr) :
  Forall (fun entry : jsstr => ~ hasCapital entry)
    (Plugin.formatAllowFrom allowFrom).
Proof.
  unfold Plugin.formatAllowFrom.
  induction allowFrom as [|x l IH]; simpl; [constructor|].
  destruct (truthy (toLowerCase (trim x))); [|exact IH].
  constructor; [apply toLowerCase_no_capital | exact IH].
Qed.

(** X19: the display form of an allowlist is a normal form.  On
    entries of the Basic Latin block, formatting a formatted list
    changes nothing, and every entry of a formatted list is non-empty,
    has no capital letter A-Z and is left as it is by the entry
    normaliser of the pairing flow. *)
Theorem formatAllowFrom_normal_form (allowFrom : list jsstr) :
  Forall isAscii allowFrom ->
  Plugin.formatAllowFrom (Plugin.formatAllowFrom allowFrom)
  = Plugin.formatAllowFrom allowFrom
  /\ Forall (fun entry : jsstr =>
               entry <> []
               /\ ~ hasCapital entry
               /\ Plugin.normalizeEntry entry = entry)
       (Plugin.formatAllowFrom allowFrom).
Proof.
  intros _. unfold Plugin.formatAllowFrom, Plugin.normalizeEntry. split.
  - induction allowFrom as [|x l IH]; simpl; [reflexivity|].
    destruct (truthy (toLowerCase (trim x))) eqn:E; [|exact IH].
    simpl. rewrite format_entry_fixed, E, IH. reflexivity.
  - induction allowFrom as [|x l IH]; simpl; [constructor|].
    destruct (truthy (toLowerCase (trim x))) eqn:E; [|exact IH].
    constructor; [|exact IH]. split; [|split].
    + now apply truthy_true.
    + apply toLowerCase_no_capital.
    + now rewrite toLowerCase_idem, trim_toLowerCase, trim_idem.
Qed.

Lemma formatAllowFrom_normal_form_witness :
  Plugin.formatAllowFrom [str " Ann@X.com "; str "  "; str "bob@x.com"]
  = [str "ann@x.com"; str "bob@x.com"]
  /\ Plugin.formatAllowFrom [str "ann@x.com"; str "bob@x.com"]
     = [str "ann@x.com"; str "bob@x.com"].
Proof.
  assert (Hascii : Forall isAscii
                     [str " Ann@X.com "; str "  "; str "bob@x.com"]).
  { repeat constructor. }
  destruct (formatAllowFrom_normal_form _ Hascii) as [Hidem _].
  split; [reflexivity | exact Hidem].
Defined.

(** X20: a formatted allowlist never matches an address with a capital
    letter.  Under the "allowlist" DM policy, when [allowFrom] is the
    display form of some list of Basic Latin entries, a direct message
    whose sender's email holds a capital letter A-Z is denied. *)
Theorem formatted_allowlist_denies_capitals {Timestamp : Type}
    (message : Normalized.t Timestamp) (account : ResolvedGoogleChatAccount.t)
    (entries : list jsstr) (email : jsstr) :
  Forall isAscii entries ->
  Normalized.Chat.type (Normalized.chat message) = Normalized.dm ->
  GoogleChatAccountConfig.dmPolicy (ResolvedGoogleChatAccount.config account)
  = Some (str "allowlist") ->
  GoogleChatAccountConfig.allowFrom (ResolvedGoogleChatAccount.config account)
  = Some (Plugin.formatAllowFrom entries) ->
  Normalized.Sender.email (Normalized.sender message) = Some email ->
  hasCapital email ->
  Monitor.checkMessagePolicy message account = false.
Proof.
  intros Hascii Hdm Hkind Hallow Hemail Hcap.
  rewrite checkMessagePolicy_cases. cbv zeta.
  unfold Monitor.policy. rewrite Hdm, Hkind, Hallow, Hemail. simpl.
  unfold includes. apply bool_decide_eq_false_2. intros Hin.
  pose proof (formatAllowFrom_normal_form_aux entries) as Hall.
  rewrite Forall_forall in Hall. now apply (Hall email Hin).
Qed.

Lemma formatted_allowlist_denies_capitals_witness :
  Monitor.checkMessagePolicy (sampleDM (Some (str "Ann@x.com")))
    (sampleAccount
       (sampleConfig "allowlist" (Plugin.formatAllowFrom [str " Ann@X.com "])))
  = false.
Proof.
  apply (formatted_allowlist_denies_capitals
           (sampleDM (Some (str "Ann@x.com")))
           (sampleAccount
              (sampleConfig "allowlist" (Plugin.formatAllowFrom [str " Ann@X.com "])))
           [str " Ann@X.com "] (str "Ann@x.com")).
  - repeat constructor.
  - reflexivity.
  - reflexivity.
  - reflexivity.
  - reflexivity.
  - apply Exists_cons_hd. split; discriminate.
Defined.

Lemma trim_nil : trim [] = [].
Proof. reflexivity. Qed.

(** X21: the delivery target.  A target is accepted exactly when it is
    given and is not made of white space only; the accepted target is
    the given one without its leading and trailing white space, is not
    empty, and is accepted unchanged when resolved again.  Every other
    target is turned down with the same error text. *)
Theorem resolveTarget_trimmed (to : option jsstr) :
  (forall target : jsstr,
      PluginOutbound.resolveTarget to = PluginOutbound.ok target <->
      exists raw : jsstr, to = Some raw /\ target = trim raw /\ trim raw <> [])
  /\ (forall target : jsstr,
        PluginOutbound.resolveTarget to = PluginOutbound.ok target ->
        target <> []
        /\ trim target = target
        /\ PluginOutbound.resolveTarget (Some target) = PluginOutbound.ok target)
  /\ ((to = None \/ exists raw : jsstr, to = Some raw /\ trim raw = []) <->
      PluginOutbound.resolveTarget to
      = PluginOutbound.error
          (str "Delivering to Google Chat requires --to <spaceId>")).
Proof.
  assert (Hok : forall (o : option jsstr) (target : jsstr),
             PluginOutbound.resolveTarget o = PluginOutbound.ok target <->
             exists raw : jsstr, o = Some raw /\ target = trim raw /\ trim raw <> []).
  { intros o target. unfold PluginOutbound.resolveTarget, Outbound.whenTruthy.
    destruct o as [raw|]; simpl.
    - destruct (truthy (trim raw)) eqn:E; split.
      + intros [= <-]. exists raw. repeat split. now apply truthy_true.
      + intros (raw' & [= <-] & -> & _). reflexivity.
      + discriminate.
      + intros (raw' & [= <-] & _ & Hne). apply truthy_true in Hne. congruence.
    - split; [discriminate|]. intros (raw & Habs & _). discriminate. }
  split; [apply Hok|]. split.
  - intros target Htarget. apply Hok in Htarget as (raw & _ & -> & Hne).
    split; [exact Hne|]. split; [apply trim_idem|].
    apply Hok. exists (trim raw). rewrite trim_idem. repeat split. exact Hne.
  - unfold PluginOutbound.resolveTarget, Outbound.whenTruthy.
    destruct to as [raw|]; simpl.
    + destruct (truthy (trim raw)) eqn:E; split.
      * intros [?|(raw' & [= <-] & Hnil)]; [discriminate|].
        rewrite Hnil in E. discriminate.
      * discriminate.
      * reflexivity.
      * intros _. right. exists raw. split; [reflexivity|].
        destruct (trim raw); [reflexivity | discriminate].
    + split; [reflexivity | now left].
Qed.

(* ===================================================================== *)
(** * Further properties: starting and stopping the pull transport *)
(* ===================================================================== *)

Section Lifecycle.

Context {Handler : Type} `{EqDecision Handler}.
Variable messageHandler errorHandler : Handler.

Lemma removeListener_last (name : MonitorStart.EventName) (h : Handler)
    (l : list (MonitorStart.EventName * Handler)) :
  MonitorStart.removeListener name h (l ++ [(name, h)]) = l.
Proof.
  unfold MonitorStart.removeListener. rewrite rev_app_distr. simpl.
  rewrite decide_True by reflexivity. apply rev_involutive.
Qed.

Lemma removeListener_other (x y : MonitorStart.EventName * Handler)
    (l : list (MonitorStart.EventName * Handler)) :
  x <> y ->
  MonitorStart.removeListener x.1 x.2 (l ++ [y])
  = MonitorStart.removeListener x.1 x.2 l ++ [y].
Proof.
  intros Hne. unfold MonitorStart.removeListener. rewrite rev_app_distr. simpl.
  destruct x as [name h]. simpl. now rewrite decide_False by assumption.
Qed.

Lemma removeFirst_absent (x : MonitorStart.EventName * Handler)
    (l : list (MonitorStart.EventName * Handler)) :
  x ∉ l -> MonitorStart.removeFirst x l = l.
Proof.
  induction l as [|y l IH]; intros Hout; simpl; [reflexivity|].
  apply not_elem_of_cons in Hout as [Hne Hout].
  rewrite decide_False by assumption. now rewrite IH.
Qed.

Lemma removeListener_absent (name : MonitorStart.EventName) (h : Handler)
    (l : list (MonitorStart.EventName * Handler)) :
  (name, h) ∉ l -> MonitorStart.removeListener name h l = l.
Proof.
  intros Hout. unfold MonitorStart.removeListener.
  rewrite removeFirst_absent; [apply rev_involutive|].
  intros Hin. apply Hout.
  apply list_elem_of_In, in_rev, list_elem_of_In in Hin. exact Hin.
Qed.

(** [cleanup] undoes the two registrations. *)
Lemma cleanup_registered (l : list (MonitorStart.EventName * Handler)) :
  MonitorStart.cleanup messageHandler errorHandler
    (MonitorStart.on MonitorStart.error errorHandler
       (MonitorStart.on MonitorStart.message messageHandler l)) = l.
Proof.
  unfold MonitorStart.cleanup, MonitorStart.on.
  rewrite (removeListener_other (MonitorStart.message, messageHandler)
             (MonitorStart.error, errorHandler)) by discriminate.
  simpl. rewrite removeListener_last. apply removeListener_last.
Qed.

(** X22: the start guard.  Starting the pull transport fails exactly
    when the account's project id or subscription name is the empty
    string, before any listener is attached, and the error text names
    the account id.  An account that [isConfigured] accepts always gets
    past the guard, but so does one whose project id is not empty yet
    white space only, which [isConfigured] turns down. *)
Theorem monitorGoogleChatProvider_guard (account : ResolvedGoogleChatAccount.t)
    (aborted : bool) (listeners : list (MonitorStart.EventName * Handler)) :
  let start :=
    MonitorStart.monitorGoogleChatProvider messageHandler errorHandler account
      aborted listeners in
  ((exists text : jsstr, start = MonitorStart.configError text) <->
   ResolvedGoogleChatAccount.projectId account = []
   \/ ResolvedGoogleChatAccount.subscriptionName account = [])
  /\ (forall text : jsstr,
        start = MonitorStart.configError text ->
        strIncludes text (ResolvedGoogleChatAccount.accountId account) = true)
  /\ (Plugin.isConfigured account = true ->
      exists l onAbort, start = MonitorStart.started l onAbort)
  /\ (ResolvedGoogleChatAccount.projectId account <> [] ->
      trim (ResolvedGoogleChatAccount.projectId account) = [] ->
      ResolvedGoogleChatAccount.subscriptionName account <> [] ->
      Plugin.isConfigured account = false
      /\ exists l onAbort, start = MonitorStart.started l onAbort).
Proof.
  intros start. subst start. unfold MonitorStart.monitorGoogleChatProvider.
  destruct (ResolvedGoogleChatAccount.projectId account) as [|p project] eqn:Hp;
    cbn [truthy negb orb].
  { split; [split; [now left | eexists; reflexivity]|].
    split; [|split].
    - intros text Htext.
      assert (E : text = str "Google Chat account "
                         ++ ResolvedGoogleChatAccount.accountId account
                         ++ str " missing projectId or subscriptionName")
        by congruence.
      rewrite E. apply strIncludes_app.
    - unfold Plugin.isConfigured. now rewrite Hp.
    - congruence. }
  destruct (ResolvedGoogleChatAccount.subscriptionName account)
    as [|s subscription] eqn:Hs; cbn [truthy negb orb].
  { split; [split; [now right | eexists; reflexivity]|].
    split; [|split].
    - intros text Htext.
      assert (E : text = str "Google Chat account "
                         ++ ResolvedGoogleChatAccount.accountId account
                         ++ str " missing projectId or subscriptionName")
        by congruence.
      rewrite E. apply strIncludes_app.
    - unfold Plugin.isConfigured. rewrite Hs.
      now rewrite andb_false_r.
    - intros _ _ Hne. congruence. }
  split.
  { split.
    - intros [text Htext]. destruct aborted; discriminate.
    - intros [?|?]; discriminate. }
  split; [intros text Htext; destruct aborted; discriminate|].
  split.
  - intros _. destruct aborted; eexists; eexists; reflexivity.
  - intros _ Hblank _. split.
    + unfold Plugin.isConfigured. now rewrite Hp, Hblank.
    + destruct aborted; eexists; eexists; reflexivity.
Qed.

(** X23: stopping.  For an account that gets past the guard, on a
    subscription that does not already hold the two handlers: when the
    abort signal is already set the subscription is left with the
    listeners it had and nothing is registered on the signal; otherwise
    the two handlers are added, in this order, and the returned cleanup
    removes exactly them.  Running the cleanup again changes nothing. *)
Theorem monitorGoogleChatProvider_cleanup (account : ResolvedGoogleChatAccount.t)
    (aborted : bool) (listeners : list (MonitorStart.EventName * Handler)) :
  ResolvedGoogleChatAccount.projectId account <> [] ->
  ResolvedGoogleChatAccount.subscriptionName account <> [] ->
  (MonitorStart.message, messageHandler) ∉ listeners ->
  (MonitorStart.error, errorHandler) ∉ listeners ->
  let cleanup := MonitorStart.cleanup messageHandler errorHandler in
  exists attached : list (MonitorStart.EventName * Handler),
    MonitorStart.monitorGoogleChatProvider messageHandler errorHandler account
      aborted listeners
    = MonitorStart.started attached (negb aborted)
    /\ attached
       = (if aborted then listeners
          else listeners ++ [(MonitorStart.message, messageHandler);
                             (MonitorStart.error, errorHandler)])
    /\ cleanup attached = listeners
    /\ cleanup (cleanup attached) = listeners.
Proof.
  intros Hp Hs Hm He cleanup.
  assert (Hnoop : cleanup listeners = listeners).
  { unfold cleanup, MonitorStart.cleanup.
    rewrite (removeListener_absent _ _ _ Hm).
    apply removeListener_absent, He. }
  unfold MonitorStart.monitorGoogleChatProvider.
  destruct (ResolvedGoogleChatAccount.projectId account); [congruence|].
  destruct (ResolvedGoogleChatAccount.subscriptionName account); [congruence|].
  simpl. destruct aborted; simpl.
  - exists listeners. fold cleanup. rewrite cleanup_registered.
    repeat split; [exact Hnoop|]. now rewrite Hnoop.
  - eexists. split; [reflexivity|]. split.
    { unfold MonitorStart.on. now rewrite <- app_assoc. }
    unfold cleanup. rewrite cleanup_registered. split; [reflexivity|].
    exact Hnoop.
Qed.

End Lifecycle.

Lemma monitorGoogleChatProvider_cleanup_witness :
  let account :=
    resolveGoogleChatAccount sampleNormalizeAccountId providerLevelConfig None in
  exists attached : list (MonitorStart.EventName * nat),
    MonitorStart.monitorGoogleChatProvider 1%nat 2%nat account false []
    = MonitorStart.started attached true
    /\ MonitorStart.cleanup 1%nat 2%nat attached = [].
Proof.
  intros account.
  destruct (monitorGoogleChatProvider_cleanup 1%nat 2%nat account false []
              ltac:(discriminate) ltac:(discriminate)
              (not_elem_of_nil _) (not_elem_of_nil _))
    as (attached & Hstart & _ & Hclean & _).
  exists attached. split; [exact Hstart | exact Hclean].
Defined.

(** X24: the display name of a resolved account.  Whatever the
    configuration and the account id, the name of the resolved account
    is either absent or a non-empty string without leading or trailing
    white space: a name made of white space only is dropped. *)
Theorem resolveGoogleChatAccount_name
    (normalizeAccountId : option jsstr -> jsstr)
    (cfg : ClawdbotConfig.t) (accountId : option jsstr) :
  let account := resolveGoogleChatAccount normalizeAccountId cfg accountId in
  let configured :=
    GoogleChatAccountConfig.name (ResolvedGoogleChatAccount.config account) in
  (forall name : jsstr,
      ResolvedGoogleChatAccount.name account = Some name ->
      name <> [] /\ trim name = name
      /\ exists raw : jsstr, configured = Some raw /\ name = trim raw)
  /\ (ResolvedGoogleChatAccount.name account = None <->
      configured = None \/ exists raw : jsstr, configured = Some raw /\ trim raw = []).
Proof.
  intros account configured. subst account configured.
  unfold resolveGoogleChatAccount. cbv zeta.
  cbn [ResolvedGoogleChatAccount.name ResolvedGoogleChatAccount.config].
  unfold trimmedName.
  destruct (GoogleChatAccountConfig.name
              (mergeGoogleChatAccountConfig cfg (normalizeAccountId accountId)))
    as [raw|]; [|split; [discriminate | split; [now left | reflexivity]]].
  destruct (truthy (trim raw)) eqn:E; split.
  - intros name [= <-]. split; [now apply truthy_true|].
    split; [apply trim_idem | now exists raw].
  - split; [discriminate|].
    intros [?|(raw' & [= <-] & Hnil)]; [discriminate|].
    rewrite Hnil in E. discriminate.
  - discriminate.
  - split; [|reflexivity]. intros _. right. exists raw. split; [reflexivity|].
    destruct (trim raw); [reflexivity | discriminate].
Qed.
